(** * Flappy (Pygame): the simulation core of [flappy_pygame.py]

    A shallow embedding of the game's entities, its per-frame update and its
    high-score store, followed by the properties the specification states
    about them.

    Conventions of the embedding.
    - Python [int] is [Z]; Python [float] is IEEE-754 binary64, embedded as
      Rocq's primitive [float], so that [+] and [*] on the bird's velocity and
      height round exactly as the interpreter does.
    - An exception that escapes [main] is the result [None].
    - A text is a [string] with one code point below 256 per character.
    - The fields of a [pygame.Rect] are C [int]s; the one the program fills
      from a float, the height of the bird's box, is checked for it.
    - The module [random] is an input: every call that draws a number takes the
      raw draw as an argument, so a statement over all draws is a statement
      over all outcomes.
    - Drawing, sound and fonts are left out: no value they compute is read
      back by the simulation. *)

From Stdlib Require Import ZArith List Bool Lia String Ascii QArith Qabs.
From Stdlib Require Import Qround.
From Stdlib Require Import PrimFloat SpecFloat FloatOps Uint63 DecimalString.
From Stdlib Require Import FloatAxioms Sorted.
From Stdlib Require DecimalFacts DecimalPos DecimalZ.
Import ListNotations.

#[local] Set Warnings "-inexact-float".
#[local] Open Scope Z_scope.

(* ------------------------------------------------------------------ *)
(** ** Configuration / constants *)

Definition WIDTH : Z := 400.
Definition HEIGHT : Z := 640.
Definition BIRD_X : Z := 80.
Definition BIRD_WIDTH : Z := 34.
Definition BIRD_HEIGHT : Z := 24.
Definition GRAVITY : float := 0.45%float.
Definition FLAP_STRENGTH : float := (-9.5)%float.
Definition PIPE_WIDTH : Z := 70.
Definition PIPE_GAP : Z := 150.
Definition PIPE_SPACING : Z := 150.
Definition PIPE_SPEED_BASE : Z := 3.
Definition FLOOR_HEIGHT : Z := 100.
Definition COIN_RADIUS : Z := 10.
Definition COIN_BONUS : Z := 5.
Definition PARTICLE_LIFETIME : Z := 30.

(* ------------------------------------------------------------------ *)
(** ** Python numbers *)

Module Py.

(** [float(z)] for an [int] of magnitude below 2^53 (exact there). *)
Definition float_of_int (z : Z) : float :=
  if z <? 0 then PrimFloat.opp (PrimFloat.of_uint63 (Uint63.of_Z (- z)))
  else PrimFloat.of_uint63 (Uint63.of_Z z).

(** [int(f)]: truncation toward zero; [ValueError] on a NaN and
    [OverflowError] on an infinity, both [None] here. *)
Definition int_of_float (f : float) : option Z :=
  match Prim2SF f with
  | S754_zero _ => Some 0
  | S754_finite s m e =>
      let a := Z.shiftl (Z.pos m) e in
      Some (if s then - a else a)
  | S754_infinity _ => None
  | S754_nan => None
  end.

(** The exact rational value of a finite float. *)
Definition Q_of_float (f : float) : option Q :=
  match Prim2SF f with
  | S754_zero _ => Some 0%Q
  | S754_finite s m e =>
      let a := if (0 <=? e)%Z then inject_Z (Z.pos m * 2 ^ e)
               else (Z.pos m # Pos.shiftl 1 (Z.to_N (- e)))%Q in
      Some (if s then Qopp a else a)
  | _ => None
  end.

(** The built-ins [min(a, b)] and [max(a, b)]: the first argument is kept
    unless the second compares strictly below (above) it. *)
Definition min (a b : float) : float := if PrimFloat.ltb b a then b else a.
Definition max (a b : float) : float := if PrimFloat.ltb a b then b else a.

(** [a // b] on [int], for a positive divisor. *)
Definition floordiv (a b : Z) : Z := a / b.

End Py.

(* ------------------------------------------------------------------ *)
(** ** class Bird *)

Module Bird.

(** [rect] and [image] are written by the class and read only by the
    drawing code; they are not part of the embedding. The one effect of
    writing [rect] (line 91), a [TypeError] on a height beyond a C [int], is
    accounted for where the frame builds the bird's box, [bird_rect]. *)
Record t : Type := mk
  { x : Z; y : float; w : Z; h : Z; vel : float; rotation : float }.

Definition init (x0 : Z) (y0 : Z) : t :=
  {| x := x0; y := Py.float_of_int y0; w := BIRD_WIDTH; h := BIRD_HEIGHT;
     vel := 0%float; rotation := 0%float |}.

Definition flap (b : t) : t :=
  {| x := x b; y := y b; w := w b; h := h b;
     vel := FLAP_STRENGTH; rotation := rotation b |}.

Definition update (b : t) : t :=
  let vel' := (vel b + GRAVITY)%float in
  let y' := (y b + vel')%float in
  {| x := x b; y := y'; w := w b; h := h b; vel := vel';
     rotation := Py.max (-25)%float (Py.min 90%float (- vel' * 3)%float) |}.

(** [n] calls of [update] in a row. *)
Definition updates (n : nat) (b : t) : t := Nat.iter n update b.

End Bird.

(** The clamp of the specification, [clamp(v, lo, hi)]. *)
Definition clamp (v lo hi : float) : float := Py.max lo (Py.min hi v).

(** Repeated binary64 addition of the gravity constant. *)
Definition add_gravity (n : nat) (v0 : float) : float :=
  Nat.iter n (fun v => (v + GRAVITY)%float) v0.

(** Difficulty scaling, line 250 of the source. *)
Definition pipe_speed (score : Z) : Z :=
  PIPE_SPEED_BASE + Py.floordiv score 10.

(* ------------------------------------------------------------------ *)
(** ** pygame.Rect and module random *)

Module Rect.

Record t : Type := mk { x : Z; y : Z; w : Z; h : Z }.

(** [Rect.colliderect] of pygame 2: a rectangle of zero width or height
    collides with nothing; otherwise the open-interval overlap test on both
    axes, with the edges normalised for negative sizes. *)
Definition colliderect (a b : t) : bool :=
  if (w a =? 0) || (h a =? 0) || (w b =? 0) || (h b =? 0) then false
  else
    (Z.min (x a) (x a + w a) <? Z.max (x b) (x b + w b))
    && (Z.min (y a) (y a + h a) <? Z.max (y b) (y b + h b))
    && (Z.min (x b) (x b + w b) <? Z.max (x a) (x a + w a))
    && (Z.min (y b) (y b + h b) <? Z.max (y a) (y a + h a)).

(** The setter of the [center] attribute. *)
Definition set_center (r : t) (cx cy : Z) : t :=
  {| x := cx - Z.shiftr (w r) 1; y := cy - Z.shiftr (h r) 1;
     w := w r; h := h r |}.

End Rect.

Module Random.

(** [random.randint(a, b)] is [a + randbelow(b - a + 1)]; [r] is the raw
    draw. Both call sites have [a <= b]. *)
Definition randint (a b : Z) (r : Z) : Z := a + r mod (b - a + 1).

End Random.

(* ------------------------------------------------------------------ *)
(** ** class Pipe *)

Module Pipe.

Record t : Type := mk { x : Z; w : Z; gap_y : Z; passed : bool }.

(** [int(HEIGHT * 0.2)] and [int(HEIGHT - FLOOR_HEIGHT - PIPE_GAP - 20)]. *)
Definition gap_y_min : Z :=
  match Py.int_of_float (Py.float_of_int HEIGHT * 0.2)%float with
  | Some z => z
  | None => 0
  end.
Definition gap_y_max : Z := HEIGHT - FLOOR_HEIGHT - PIPE_GAP - 20.

Definition init (x0 : Z) (r : Z) : t :=
  {| x := x0; w := PIPE_WIDTH;
     gap_y := Random.randint gap_y_min gap_y_max r; passed := false |}.

Definition update (speed : Z) (p : t) : t :=
  {| x := x p - speed; w := w p; gap_y := gap_y p; passed := passed p |}.

Definition offscreen (p : t) : bool := x p + w p <? 0.

Definition top_rect (p : t) : Rect.t := Rect.mk (x p) 0 (w p) (gap_y p).

Definition bottom_rect (p : t) : Rect.t :=
  Rect.mk (x p) (gap_y p + PIPE_GAP) (w p)
          (HEIGHT - FLOOR_HEIGHT - (gap_y p + PIPE_GAP)).

(** The assignment [p.passed = True]. *)
Definition set_passed (p : t) : t :=
  {| x := x p; w := w p; gap_y := gap_y p; passed := true |}.

End Pipe.

(* ------------------------------------------------------------------ *)
(** ** class Coin, class Particle *)

Module Coin.

Record t : Type := mk { x : Z; y : Z; radius : Z; rect : Rect.t }.

Definition init (x0 y0 : Z) : t :=
  {| x := x0; y := y0; radius := COIN_RADIUS;
     rect := Rect.mk (x0 - COIN_RADIUS) (y0 - COIN_RADIUS)
                     (COIN_RADIUS * 2) (COIN_RADIUS * 2) |}.

Definition update (speed : Z) (c : t) : t :=
  let x' := x c - speed in
  {| x := x'; y := y c; radius := radius c;
     rect := Rect.set_center (rect c) x' (y c) |}.

Definition offscreen (c : t) : bool := x c + radius c <? 0.

Definition eq_dec (a b : t) : {a = b} + {a <> b}.
Proof. repeat decide equality. Defined.

End Coin.

Module Particle.

(** The colour is the same constant for every particle and is left out. *)
Record t : Type := mk { x : Z; y : Z; lifetime : Z }.

Definition init (x0 y0 : Z) : t :=
  {| x := x0; y := y0; lifetime := PARTICLE_LIFETIME |}.

Definition update (p : t) : t :=
  {| x := x p; y := y p - 1; lifetime := lifetime p - 1 |}.

End Particle.

(* ------------------------------------------------------------------ *)
(** ** The high-score store: [load_highscore], [save_highscore] *)

Module HighScore.

(** What [HIGHSCORE_FILE] can be when the program looks at it: missing;
    present but [open] or [read] raises ([OSError], [UnicodeDecodeError]);
    present with a text. The text is what [f.read()] returns, a sequence
    of characters with code points below 256 (a [string] holds one code
    point per [ascii]); characters beyond U+00FF are outside the
    embedding. *)
Inductive file : Type :=
| Absent
| Unreadable
| Content (s : string).

(** [str.isspace] below U+0100, the characters [str.strip()] and [int]
    drop at both ends: U+0009..U+000D, U+001C..U+0020, U+0085 (next line)
    and U+00A0 (no-break space). *)
Definition is_space (c : ascii) : bool :=
  let n := nat_of_ascii c in
  ((9 <=? n) && (n <=? 13) || (28 <=? n) && (n <=? 32)
   || (n =? 133) || (n =? 160))%nat.

Definition digit (c : ascii) : option Z :=
  let n := nat_of_ascii c in
  if ((48 <=? n) && (n <=? 57))%nat then Some (Z.of_nat (n - 48)) else None.

Definition is_digit (c : ascii) : bool :=
  match digit c with Some _ => true | None => false end.

Fixpoint lstrip (l : list ascii) : list ascii :=
  match l with
  | c :: r => if is_space c then lstrip r else l
  | [] => []
  end.

(** [str.strip()]. *)
Definition strip (l : list ascii) : list ascii :=
  rev (lstrip (rev (lstrip l))).

(** The digits of a decimal literal after its first digit: single
    underscores may separate digits and may not end the literal. *)
Fixpoint digits (acc : Z) (after_underscore : bool) (l : list ascii)
  : option Z :=
  match l with
  | [] => if after_underscore then None else Some acc
  | c :: r =>
      if Ascii.eqb c "_"%char then
        if after_underscore then None else digits acc true r
      else
        match digit c with
        | Some d => digits (10 * acc + d) false r
        | None => None
        end
  end.

Definition unsigned (l : list ascii) : option Z :=
  match l with
  | c :: r => match digit c with
              | Some d => digits d false r
              | None => None
              end
  | [] => None
  end.

(** The interpreter's bound on decimal conversions (CPython 3.11 and later,
    [sys.get_int_max_str_digits()]; 4300 unless configured, 0 when switched
    off or absent): a literal of more than 640 digits and more digits than
    the bound is refused. *)
Definition too_long (max_str_digits : nat) (l : list ascii) : bool :=
  let n := List.length (filter is_digit l) in
  ((640 <? n) && (0 <? max_str_digits) && (max_str_digits <? n))%nat.

(** [int(s)] on a [str], base 10; [None] is [ValueError]. *)
Definition int_of_str (max_str_digits : nat) (l : list ascii) : option Z :=
  let l := strip l in
  if too_long max_str_digits l then None
  else
    match l with
    | c :: r =>
        if Ascii.eqb c "-"%char then option_map Z.opp (unsigned r)
        else if Ascii.eqb c "+"%char then unsigned r
        else unsigned l
    | [] => None
    end.

(** [str(n)] on an [int]. *)
Definition str (n : Z) : string :=
  NilZero.string_of_int (Z.to_int n).

Definition load_highscore (max_str_digits : nat) (f : file) : Z :=
  match f with
  | Absent => 0                         (* not os.path.exists(...) *)
  | Unreadable => 0                     (* except Exception *)
  | Content s =>
      match strip (list_ascii_of_string s) with
      | [] => 0                         (* int("" or 0) *)
      | l => match int_of_str max_str_digits l with
             | Some n => n
             | None => 0                (* except Exception *)
             end
      end
  end.

(** How a write to the file ends: done; [open] raises and the file is as
    before; [write] raises after [open] has truncated the file. *)
Inductive outcome : Type := Written | OpenFails | WriteFails.

Definition save_highscore (o : outcome) (score : Z) (f : file) : file :=
  match o with
  | Written => Content (str score)
  | OpenFails => f
  | WriteFails => Content EmptyString
  end.

End HighScore.

(* ------------------------------------------------------------------ *)
(** ** main: the session and its frame *)

Inductive game_state : Type := menu | playing | gameover.

Definition state_eqb (a b : game_state) : bool :=
  match a, b with
  | menu, menu | playing, playing | gameover, gameover => true
  | _, _ => false
  end.

(** The local variables of [main] that outlive a frame, and the file behind
    the high score. *)
Record Game : Type := mkGame
  { bird : Bird.t;
    pipes : list Pipe.t;
    coins : list Coin.t;
    particles : list Particle.t;
    score : Z;
    state : game_state;
    paused : bool;
    highscore : Z;
    just_started_cooldown : Z;
    running : bool;
    hs_file : HighScore.file }.

(** What one frame takes from outside: the draws of [random] (used only when
    the frame spawns) and how a write of the high score would end. *)
Record Draws : Type := mkDraws
  { gap_r : Z; coin_u : float; coin_r : Z; disk : HighScore.outcome }.

Inductive key : Type := K_SPACE | K_UP | K_p | K_ESCAPE | K_other.

Inductive event : Type :=
| QUIT
| KEYDOWN (k : key)
| MOUSEBUTTONDOWN (button : Z)
| OTHER.

(** [reset_game]; [draw i] is the raw draw behind the [i]-th pipe. *)
Definition reset_game (draw : Z -> Z) (g : Game) : Game :=
  {| bird := Bird.init BIRD_X (Py.floordiv HEIGHT 2 - Py.floordiv BIRD_HEIGHT 2);
     pipes := map (fun i => Pipe.init (WIDTH + i * PIPE_SPACING + 200) (draw i))
                  [0; 1];
     coins := [];
     particles := [];
     score := 0;
     state := playing;
     paused := false;
     highscore := highscore g;
     just_started_cooldown := just_started_cooldown g;
     running := running g;
     hs_file := hs_file g |}.

Definition set_cooldown (n : Z) (g : Game) : Game :=
  {| bird := bird g; pipes := pipes g; coins := coins g;
     particles := particles g; score := score g; state := state g;
     paused := paused g; highscore := highscore g;
     just_started_cooldown := n; running := running g;
     hs_file := hs_file g |}.

Definition set_bird (b : Bird.t) (g : Game) : Game :=
  {| bird := b; pipes := pipes g; coins := coins g;
     particles := particles g; score := score g; state := state g;
     paused := paused g; highscore := highscore g;
     just_started_cooldown := just_started_cooldown g; running := running g;
     hs_file := hs_file g |}.

Definition set_paused (p : bool) (g : Game) : Game :=
  {| bird := bird g; pipes := pipes g; coins := coins g;
     particles := particles g; score := score g; state := state g;
     paused := p; highscore := highscore g;
     just_started_cooldown := just_started_cooldown g; running := running g;
     hs_file := hs_file g |}.

Definition set_running (r : bool) (g : Game) : Game :=
  {| bird := bird g; pipes := pipes g; coins := coins g;
     particles := particles g; score := score g; state := state g;
     paused := paused g; highscore := highscore g;
     just_started_cooldown := just_started_cooldown g; running := r;
     hs_file := hs_file g |}.

(** The branch shared by SPACE, UP and the left mouse button
    (lines 220-227 and 234-241). *)
Definition primary_action (draw : Z -> Z) (g : Game) : Game :=
  match state g with
  | menu => set_cooldown 10 (reset_game draw g)
  | playing =>
      if (just_started_cooldown g =? 0) && negb (paused g)
      then set_bird (Bird.flap (bird g)) g
      else g
  | gameover => set_cooldown 10 (reset_game draw g)
  end.

(** The body of [for event in pygame.event.get()]. *)
Definition handle_event (draw : Z -> Z) (e : event) (g : Game) : Game :=
  match e with
  | QUIT => set_running false g
  | KEYDOWN k =>
      let g1 := match k with
                | K_SPACE | K_UP => primary_action draw g
                | _ => g
                end in
      let g2 := match k, state g1 with
                | K_p, playing => set_paused (negb (paused g1)) g1
                | _, _ => g1
                end in
      match k with
      | K_ESCAPE => set_running false g2
      | _ => g2
      end
  | MOUSEBUTTONDOWN button =>
      if button =? 1 then primary_action draw g else g
  | OTHER => g
  end.

(** Lines 253-258: a pipe is appended when the list is empty or its last pipe
    has come far enough in; a coin goes with it when [random.random() < 0.5]. *)
Definition need_spawn (ps : list Pipe.t) : bool :=
  match rev ps with
  | [] => true
  | p :: _ => Pipe.x p <? WIDTH - PIPE_SPACING
  end.

Definition spawn (d : Draws) (ps : list Pipe.t) (cs : list Coin.t)
  : list Pipe.t * list Coin.t :=
  if need_spawn ps then
    let p := Pipe.init (WIDTH + 20) (gap_r d) in
    if PrimFloat.ltb (coin_u d) 0.5 then
      let coin_y := Random.randint (Pipe.gap_y p + 20)
                                   (Pipe.gap_y p + PIPE_GAP - 20) (coin_r d) in
      (ps ++ [p], cs ++ [Coin.init (WIDTH + 20) coin_y])
    else (ps ++ [p], cs)
  else (ps, cs).

(** Lines 245-273: everything of the update before the collisions. *)
Definition advance (d : Draws) (g : Game) : Game :=
  let cooldown := if 0 <? just_started_cooldown g
                  then just_started_cooldown g - 1
                  else just_started_cooldown g in
  let bird1 := Bird.update (bird g) in
  let speed := pipe_speed (score g) in
  let '(pipes1, coins1) := spawn d (pipes g) (coins g) in
  let pipes2 := filter (fun p => negb (Pipe.offscreen p))
                       (map (Pipe.update speed) pipes1) in
  let coins2 := filter (fun c => negb (Coin.offscreen c))
                       (map (Coin.update speed) coins1) in
  let particles2 := filter (fun p => 0 <? Particle.lifetime p)
                           (map Particle.update (particles g)) in
  {| bird := bird1; pipes := pipes2; coins := coins2;
     particles := particles2; score := score g; state := state g;
     paused := paused g; highscore := highscore g;
     just_started_cooldown := cooldown; running := running g;
     hs_file := hs_file g |}.

(** The two tests on a pipe in the loop of lines 278-285. *)
Definition hits_pipe (bird_rect : Rect.t) (p : Pipe.t) : bool :=
  Rect.colliderect bird_rect (Pipe.top_rect p)
  || Rect.colliderect bird_rect (Pipe.bottom_rect p).

Definition flips (bird_x : Z) (p : Pipe.t) : bool :=
  negb (Pipe.passed p) && (Pipe.x p + Pipe.w p <? bird_x).

(** One turn of that loop: the pipes already seen (as the loop leaves them),
    the hit flag and the score. *)
Definition pipe_step (bird_rect : Rect.t) (bird_x : Z)
    (acc : list Pipe.t * bool * Z) (p : Pipe.t) : list Pipe.t * bool * Z :=
  let '(seen, hit, sc) := acc in
  let hit' := if hits_pipe bird_rect p then true else hit in
  if flips bird_x p
  then (seen ++ [Pipe.set_passed p], hit', sc + 1)
  else (seen ++ [p], hit', sc).

Definition pipe_pass (bird_rect : Rect.t) (bird_x : Z)
    (ps : list Pipe.t) (sc : Z) : list Pipe.t * bool * Z :=
  fold_left (pipe_step bird_rect bird_x) ps ([], false, sc).

(** [list.remove]: the first element equal to [c] goes. Coins compare by
    identity in the source; two coins with equal fields are the same value
    here, and removing either leaves the same list of values. *)
Fixpoint remove_first (c : Coin.t) (l : list Coin.t) : list Coin.t :=
  match l with
  | [] => []
  | a :: r => if Coin.eq_dec a c then r else a :: remove_first c r
  end.

(** One turn of the loop of lines 288-294 over the copy [coins[:]]: the live
    list, the score and the particles. *)
Definition coin_step (bird_rect : Rect.t)
    (acc : list Coin.t * Z * list Particle.t) (c : Coin.t)
  : list Coin.t * Z * list Particle.t :=
  let '(live, sc, parts) := acc in
  if Rect.colliderect bird_rect (Coin.rect c)
  then (remove_first c live, sc + COIN_BONUS,
        parts ++ map (fun _ => Particle.init (Coin.x c) (Coin.y c)) (seq 0 5))
  else acc.

Definition coin_pass (bird_rect : Rect.t) (cs : list Coin.t) (sc : Z)
    (parts : list Particle.t) : list Coin.t * Z * list Particle.t :=
  fold_left (coin_step bird_rect) cs (cs, sc, parts).

(** Line 297. *)
Definition on_floor (b : Bird.t) : bool :=
  PrimFloat.leb (Py.float_of_int (HEIGHT - FLOOR_HEIGHT))
                (Bird.y b + Py.float_of_int (Bird.h b))%float.

Definition on_ceiling (b : Bird.t) : bool := PrimFloat.leb (Bird.y b) 0%float.

(** What a C [int] holds: [pygame.Rect] stores its four fields so. *)
Definition c_int (z : Z) : bool := (- 2 ^ 31 <=? z) && (z <? 2 ^ 31).

(** Line 276; [int(bird.y)] raises on a NaN or an infinity, and
    [pygame.Rect] raises [TypeError] on a height beyond a C [int] (as
    does the assignment to [rect.topleft] of line 91, earlier in the same
    frame). The other three arguments are the constants of the class. *)
Definition bird_rect (b : Bird.t) : option Rect.t :=
  match Py.int_of_float (Bird.y b) with
  | Some iy =>
      if c_int iy
      then Some (Rect.mk (Bird.x b) iy (Bird.w b) (Bird.h b))
      else None
  | None => None
  end.

(** Lines 275-306: the collision pass and its consequences. *)
Definition collisions (d : Draws) (g : Game) : option Game :=
  match bird_rect (bird g) with
  | None => None
  | Some br =>
      let '(pipes1, hit1, score1) :=
        pipe_pass br (Bird.x (bird g)) (pipes g) (score g) in
      let '(coins1, score2, particles1) :=
        coin_pass br (coins g) score1 (particles g) in
      let hit := if on_floor (bird g) || on_ceiling (bird g)
                 then true else hit1 in
      let improved := hit && (highscore g <? score2) in
      Some {| bird := bird g; pipes := pipes1; coins := coins1;
              particles := particles1; score := score2;
              state := if hit then gameover else state g;
              paused := paused g;
              highscore := if improved then score2 else highscore g;
              just_started_cooldown := just_started_cooldown g;
              running := running g;
              hs_file := if improved
                         then HighScore.save_highscore (disk d) score2
                                                       (hs_file g)
                         else hs_file g |}
  end.

(** Lines 244-306: the update of one frame. *)
Definition update (d : Draws) (g : Game) : option Game :=
  if state_eqb (state g) playing && negb (paused g)
  then collisions d (advance d g)
  else Some g.

(** One iteration of [while running]: the events of the frame, then the
    update. *)
Definition frame (draw : Z -> Z) (events : list event) (d : Draws) (g : Game)
  : option Game :=
  update d (fold_left (fun g e => handle_event draw e g) events g).

(** Consecutive iterations, each with its events and its draws; a frame
    that raises ends the program. *)
Fixpoint frames (draw : Z -> Z) (inputs : list (list event * Draws))
    (g : Game) : option Game :=
  match inputs with
  | [] => Some g
  | (events, d) :: rest =>
      match frame draw events d g with
      | Some g' => frames draw rest g'
      | None => None
      end
  end.

(** Lines 183-211: the session as [main] sets it up. *)
Definition main_init (max_str_digits : nat) (f : HighScore.file)
    (draw : Z -> Z) : Game :=
  {| bird := Bird.init BIRD_X (Py.floordiv HEIGHT 2 - Py.floordiv BIRD_HEIGHT 2);
     pipes := [Pipe.init (WIDTH + 150) (draw 0);
               Pipe.init (WIDTH + 150 + PIPE_SPACING) (draw 1)];
     coins := [];
     particles := [];
     score := 0;
     state := menu;
     paused := false;
     highscore := HighScore.load_highscore max_str_digits f;
     just_started_cooldown := 0;
     running := true;
     hs_file := f |}.

(* ------------------------------------------------------------------ *)
(** ** Notions used by the statements *)

(** One frame as a single pipe lives it: moved by the frame's speed
    (line 262), dropped when off screen (line 263), otherwise seen by the loop
    of lines 278-285. The number is what the pipe adds to the score. *)
Definition pipe_frame (bird_x speed : Z) (p : Pipe.t) : option (Pipe.t * Z) :=
  let p1 := Pipe.update speed p in
  if Pipe.offscreen p1 then None
  else if flips bird_x p1 then Some (Pipe.set_passed p1, 1)
       else Some (p1, 0).

(** The life of a pipe over consecutive frames with the given speeds: after
    each collision pass it is in, the pipe and the points it gave. *)
Fixpoint pipe_life (bird_x : Z) (speeds : list Z) (p : Pipe.t)
  : list (Pipe.t * Z) :=
  match speeds with
  | [] => []
  | s :: rest =>
      match pipe_frame bird_x s p with
      | None => []
      | Some (p', pts) => (p', pts) :: pipe_life bird_x rest p'
      end
  end.

(** The pipe's right edge is strictly left of the bird. *)
Definition behind (bird_x : Z) (p : Pipe.t) : Prop :=
  Pipe.x p + Pipe.w p < bird_x.

Definition total_points (hist : list (Pipe.t * Z)) : Z :=
  fold_right Z.add 0 (map snd hist).

(** The pipes the frame moves: those of the session and the one the frame
    spawns, if it does. What is left of a pipe after the frame, and what it
    gave. *)
Definition spawned_pipes (d : Draws) (g : Game) : list Pipe.t :=
  fst (spawn d (pipes g) (coins g)).

Definition kept (bird_x speed : Z) (p : Pipe.t) : list Pipe.t :=
  match pipe_frame bird_x speed p with
  | Some (p', _) => [p']
  | None => []
  end.

Definition points (bird_x speed : Z) (p : Pipe.t) : Z :=
  match pipe_frame bird_x speed p with
  | Some (_, pts) => pts
  | None => 0
  end.

Definition sum (l : list Z) : Z := fold_right Z.add 0 l.

(** The coins the bird's box touches, and the burst a coin leaves. *)
Definition touches (br : Rect.t) (c : Coin.t) : bool :=
  Rect.colliderect br (Coin.rect c).

Definition burst (c : Coin.t) : list Particle.t :=
  repeat (Particle.init (Coin.x c) (Coin.y c)) 5.

(** The primary action: SPACE, UP or the left mouse button. *)
Definition is_primary (e : event) : bool :=
  match e with
  | KEYDOWN K_SPACE | KEYDOWN K_UP => true
  | MOUSEBUTTONDOWN b => b =? 1
  | _ => false
  end.

(** The value of a string of decimal digits. *)
Definition dec_value (ds : list ascii) : Z :=
  fold_left (fun acc c => 10 * acc + Z.of_nat (nat_of_ascii c - 48)) ds 0.

(** The blank characters below U+0100, by code point: tab to carriage
    return, the four separators and the space, next line, no-break space. *)
Definition blank (c : ascii) : Prop :=
  (9 <= nat_of_ascii c <= 13 \/ 28 <= nat_of_ascii c <= 32
   \/ nat_of_ascii c = 133 \/ nat_of_ascii c = 160)%nat.

(** A text is a non-negative integer when [int] accepts it with a value
    that is at least 0. *)
Definition is_nonneg_int (max_str_digits : nat) (s : string) : bool :=
  match HighScore.int_of_str max_str_digits (list_ascii_of_string s) with
  | Some n => 0 <=? n
  | None => false
  end.

(** The distance between the velocity after [n] updates and the exact sum
    [v0 + n * GRAVITY] of the two binary64 constants, as a rational. *)
Definition drift (v0 : float) (n : nat) : option Q :=
  match Py.Q_of_float (add_gravity n v0),
        Py.Q_of_float v0, Py.Q_of_float GRAVITY with
  | Some v, Some q0, Some g =>
      Some (Qabs (v - (q0 + inject_Z (Z.of_nat n) * g)))%Q
  | _, _, _ => None
  end.

Definition drift_below (bound : Q) (v0 : float) (n : nat) : bool :=
  match drift v0 n with
  | Some e => match (e ?= bound)%Q with Lt => true | _ => false end
  | None => false
  end.

(** A bird as [reset_game] makes it, with a given velocity. *)
Definition bird_with (v0 : float) : Bird.t :=
  {| Bird.x := BIRD_X; Bird.y := 308%float; Bird.w := BIRD_WIDTH;
     Bird.h := BIRD_HEIGHT; Bird.vel := v0; Bird.rotation := 0%float |}.

(** What the loop of lines 278-285 leaves of a pipe. *)
Definition mark (bird_x : Z) (p : Pipe.t) : Pipe.t :=
  if flips bird_x p then Pipe.set_passed p else p.

(** The fatal conditions of a frame, on the session as the collision pass
    finds it: some pipe is hit, or the floor, or the ceiling. *)
Definition hit_at (br : Rect.t) (g : Game) : bool :=
  existsb (hits_pipe br) (pipes g) || on_floor (bird g) || on_ceiling (bird g).

(** The points of a collision pass: one for each pipe that flips, the bonus
    for each coin touched. *)
Definition earned (br : Rect.t) (bird_x : Z) (ps : list Pipe.t)
    (cs : list Coin.t) : Z :=
  Z.of_nat (List.length (filter (flips bird_x) ps))
  + COIN_BONUS * Z.of_nat (List.length (filter (touches br) cs)).

(** The gap of a pipe is where the constructor may put it. *)
Definition gap_ok (p : Pipe.t) : Prop :=
  Pipe.gap_y_min <= Pipe.gap_y p <= Pipe.gap_y_max.

(** A pipe as the constructor shapes it: the gap in range, the body of
    positive width. *)
Definition pipe_shaped (p : Pipe.t) : Prop := gap_ok p /\ 0 < Pipe.w p.

(** A rational number cut to an integer, the fraction dropped: what [int]
    makes of a float, said on the float's exact value. *)
Definition truncation (q : Q) : Z :=
  if Qle_bool 0 q then Qfloor q else Qceiling q.

(** The box with corner [(x, y)], width [w] and height [h] meets a pipe:
    the two overlap sideways, and the box has a point in the pipe's upper
    part, which spans the heights from [0] to [gap_y], or in its lower part,
    from [gap_y + PIPE_GAP] to the floor line [HEIGHT - FLOOR_HEIGHT]. Heights
    grow downward; a box that only touches a part along an edge does not
    meet it. *)
Definition meets_pipe (x y w h : Z) (p : Pipe.t) : Prop :=
  (x < Pipe.x p + Pipe.w p /\ Pipe.x p < x + w)
  /\ ((y < Pipe.gap_y p /\ 0 < y + h)
      \/ (Pipe.gap_y p + PIPE_GAP < y + h /\ y < HEIGHT - FLOOR_HEIGHT)).

(** Sessions in play used as test fixtures: a bird at rest at height [y0]
    among the given pipes and coins, score 0, stored high score [hs]. *)
Definition fixture (y0 : float) (ps : list Pipe.t) (cs : list Coin.t)
    (hs : Z) : Game :=
  {| bird := {| Bird.x := BIRD_X; Bird.y := y0; Bird.w := BIRD_WIDTH;
                Bird.h := BIRD_HEIGHT; Bird.vel := 0%float;
                Bird.rotation := 0%float |};
     pipes := ps; coins := cs; particles := []; score := 0;
     state := playing; paused := false; highscore := hs;
     just_started_cooldown := 0; running := true;
     hs_file := HighScore.Absent |}.

Definition fixture_draws : Draws :=
  {| gap_r := 100; coin_u := 0.75%float; coin_r := 7;
     disk := HighScore.Written |}.

(** A pipe that is about to be passed, a pipe still ahead of the bird, and
    a coin in the bird's way. *)
Definition passing_pipe : Pipe.t :=
  {| Pipe.x := 12; Pipe.w := PIPE_WIDTH; Pipe.gap_y := 200;
     Pipe.passed := false |}.
Definition near_pipe : Pipe.t :=
  {| Pipe.x := 250; Pipe.w := PIPE_WIDTH; Pipe.gap_y := 200;
     Pipe.passed := false |}.
Definition coin_ahead (y0 : Z) : Coin.t :=
  Coin.update 0 (Coin.init 103 y0).

(* ------------------------------------------------------------------ *)
(** ** Notions used by the further properties *)

(** Lines 213-346, [while running]: the loop runs a frame for each input as
    long as [running] holds; QUIT and ESCAPE clear it during a frame, which
    is still played to its end. An input is what a frame takes from outside:
    the draws a reset would use, the events, the draws of the update. *)
Fixpoint main_loop (inputs : list ((Z -> Z) * list event * Draws))
    (g : Game) : option Game :=
  match inputs with
  | [] => Some g
  | (draw, events, d) :: rest =>
      if running g then
        match frame draw events d g with
        | Some g' => main_loop rest g'
        | None => None
        end
      else Some g
  end.

(** The sessions the program can be in: [main]'s first session followed by
    any number of iterations of its loop. *)
Definition reachable (g : Game) : Prop :=
  exists (m : nat) (f : HighScore.file) (draw0 : Z -> Z)
         (inputs : list ((Z -> Z) * list event * Draws)),
    main_loop inputs (main_init m f draw0) = Some g.

(** The events that neither pause nor quit: the primary action and the
    events [main] does not look at. *)
Definition not_control (e : event) : bool :=
  match e with
  | QUIT | KEYDOWN K_p | KEYDOWN K_ESCAPE => false
  | _ => true
  end.

(** One more digit read by [int]. *)
Definition dec_step (a : Z) (c : ascii) : Z :=
  10 * a + Z.of_nat (nat_of_ascii c - 48).

(** [Particle.draw], line 152: the opacity
    [int(255 * (self.lifetime / PARTICLE_LIFETIME))]. *)
Definition particle_alpha (p : Particle.t) : option Z :=
  Py.int_of_float
    (255 * (Py.float_of_int (Particle.lifetime p)
            / Py.float_of_int PARTICLE_LIFETIME))%float.

(** Lines 271-273: what a frame in play does to the particles. *)
Definition particles_step (ps : list Particle.t) : list Particle.t :=
  filter (fun p => 0 <? Particle.lifetime p) (map Particle.update ps).

(** A particle [n] frames later. *)
Definition rise (n : Z) (q : Particle.t) : Particle.t :=
  {| Particle.x := Particle.x q; Particle.y := Particle.y q - n;
     Particle.lifetime := Particle.lifetime q - n |}.

(** [q] is at least the spacing to the right of [p]. *)
Definition ahead (p q : Pipe.t) : Prop :=
  Pipe.x p + PIPE_SPACING <= Pipe.x q.

(** A pipe has the width of every pipe and is between its last position on
    screen and the right-most position a reset gives. *)
Definition pipe_ok (p : Pipe.t) : Prop :=
  Pipe.w p = PIPE_WIDTH
  /\ - PIPE_WIDTH <= Pipe.x p <= WIDTH + PIPE_SPACING + 200.

(** The rectangle of a coin is the square of side twice the radius around
    its position. *)
Definition coin_ok (c : Coin.t) : Prop :=
  Coin.radius c = COIN_RADIUS
  /\ Coin.rect c
     = Rect.mk (Coin.x c - COIN_RADIUS) (Coin.y c - COIN_RADIUS)
               (COIN_RADIUS * 2) (COIN_RADIUS * 2).

(** The coin sits in the gap of the pipe, at the pipe's position. *)
Definition in_gap_of (c : Coin.t) (p : Pipe.t) : Prop :=
  Pipe.x p = Coin.x c
  /\ Pipe.gap_y p + 20 <= Coin.y c <= Pipe.gap_y p + PIPE_GAP - 20.

Definition particle_ok (q : Particle.t) : Prop :=
  1 <= Particle.lifetime q <= PARTICLE_LIFETIME.

(** What every reachable session satisfies. *)
Definition wf (g : Game) : Prop :=
  Forall gap_ok (pipes g)
  /\ Forall pipe_ok (pipes g)
  /\ Forall (fun p => Pipe.passed p = true <-> behind BIRD_X p) (pipes g)
  /\ StronglySorted ahead (pipes g)
  /\ Forall coin_ok (coins g)
  /\ Forall (fun c => exists p, In p (pipes g) /\ in_gap_of c p) (coins g)
  /\ Forall particle_ok (particles g)
  /\ 0 <= score g
  /\ 0 <= just_started_cooldown g <= 10
  /\ (state g = gameover -> score g <= highscore g)
  /\ (paused g = true -> state g = playing)
  /\ (Bird.x (bird g) = BIRD_X /\ Bird.w (bird g) = BIRD_WIDTH
      /\ Bird.h (bird g) = BIRD_HEIGHT).

(** A scripted game: SPACE in the menu, then a flap on frame 11 and on
    every 41st frame after it, which keeps the bird between the heights 225
    and 340; every pipe has its gap at 222 and comes with a coin at 292. *)
Definition playthrough_draws : Draws :=
  {| gap_r := 94; coin_u := 0.25%float; coin_r := 50;
     disk := HighScore.Written |}.

Definition playthrough_inputs (n : nat)
  : list ((Z -> Z) * list event * Draws) :=
  map (fun k =>
         (fun _ : Z => 94,
          if ((k =? 0) || ((11 <=? k) && ((k - 11) mod 41 =? 0)))%nat
          then [KEYDOWN K_SPACE] else [],
          playthrough_draws))
      (seq 0 n).

Definition playthrough (n : nat) : option Game :=
  main_loop (playthrough_inputs n)
            (main_init 4300 HighScore.Absent (fun i => i)).

(* ================================================================== *)
(** * Properties *)

(* ------------------------------------------------------------------ *)
(** ** The bird *)

Lemma updates_S (n : nat) (b : Bird.t) :
  Bird.updates (S n) b = Bird.update (Bird.updates n b).
Proof. reflexivity. Qed.

Lemma vel_updates (n : nat) (b : Bird.t) :
  Bird.vel (Bird.updates n b) = add_gravity n (Bird.vel b).
Proof.
  induction n as [|n IH]; [reflexivity|].
  rewrite updates_S. unfold add_gravity in *. simpl. now rewrite <- IH.
Qed.

(** C3, as the specification states it, fails: after a flap and two updates
    the velocity is not [FLAP_STRENGTH + 2 * GRAVITY], neither as the
    binary64 expression nor as the exact sum of the two constants, nor as
    the decimal value -8.6. *)
Lemma velocity_law_fails :
  let v := Bird.vel (Bird.updates 2 (bird_with FLAP_STRENGTH)) in
  v <> (FLAP_STRENGTH + 2 * GRAVITY)%float
  /\ (exists e, drift FLAP_STRENGTH 2 = Some e /\ (0 < e)%Q)
  /\ (exists q, Py.Q_of_float v = Some q /\ ~ (q == - (86 # 10))%Q).
Proof.
  cbv zeta. repeat split.
  - intro H.
    apply (f_equal (fun f => PrimFloat.eqb f (FLAP_STRENGTH + 2 * GRAVITY)%float)) in H.
    vm_compute in H. discriminate H.
  - eexists. split; [vm_compute; reflexivity|]. reflexivity.
  - eexists. split; [vm_compute; reflexivity|]. intro H. vm_compute in H.
    discriminate H.
Qed.

(** C3 (amended). One update adds [GRAVITY] to the velocity in binary64,
    then adds the new velocity to the height, and sets the rotation to the
    clamp of minus three times the new velocity to [-25, 90]. After [n]
    updates without a flap the velocity is the [n]-fold binary64 sum
    [((v0 + g) + g) + ...]; from rest and from a flap it stays within 2^-30 of
    the exact [v0 + n * g] for the first 600 updates. *)
Theorem bird_update_law :
  (forall b : Bird.t,
      Bird.vel (Bird.update b) = (Bird.vel b + GRAVITY)%float
      /\ Bird.y (Bird.update b) = (Bird.y b + Bird.vel (Bird.update b))%float
      /\ Bird.rotation (Bird.update b)
         = clamp (- Bird.vel (Bird.update b) * 3)%float (-25)%float 90%float
      /\ Bird.x (Bird.update b) = Bird.x b)
  /\ (forall (b : Bird.t) (n : nat),
         Bird.vel (Bird.updates n b) = add_gravity n (Bird.vel b))
  /\ forallb (drift_below (1 # 2 ^ 30) 0%float) (seq 0 601) = true
  /\ forallb (drift_below (1 # 2 ^ 30) FLAP_STRENGTH) (seq 0 601) = true.
Proof.
  split; [|split; [|split]].
  - intro b. repeat split.
  - intros b n. apply vel_updates.
  - vm_compute. reflexivity.
  - vm_compute. reflexivity.
Qed.

(** C9. Whatever the velocity was, [flap] makes it [FLAP_STRENGTH] and
    touches nothing else, so a second flap changes nothing; the impulse is
    not added to the old velocity. *)
Theorem flap_sets_velocity :
  (forall b : Bird.t,
      Bird.vel (Bird.flap b) = FLAP_STRENGTH
      /\ Bird.flap (Bird.flap b) = Bird.flap b
      /\ Bird.y (Bird.flap b) = Bird.y b
      /\ Bird.x (Bird.flap b) = Bird.x b)
  /\ Bird.vel (Bird.flap (bird_with 1%float)) <> (1 + FLAP_STRENGTH)%float.
Proof.
  split.
  - intro b. repeat split.
  - intro H.
    apply (f_equal (fun f => PrimFloat.eqb f FLAP_STRENGTH)) in H.
    vm_compute in H. discriminate H.
Qed.

(* ------------------------------------------------------------------ *)
(** ** Difficulty *)

Lemma pipe_speed_mono (s1 s2 : Z) : s1 <= s2 -> pipe_speed s1 <= pipe_speed s2.
Proof.
  intro H. unfold pipe_speed, Py.floordiv.
  apply Z.add_le_mono_l. apply Z.div_le_mono; lia.
Qed.

Lemma advance_pipes (d : Draws) (g : Game) :
  pipes (advance d g)
  = filter (fun p => negb (Pipe.offscreen p))
           (map (Pipe.update (pipe_speed (score g))) (spawned_pipes d g)).
Proof.
  unfold advance, spawned_pipes.
  destruct (spawn d (pipes g) (coins g)) as [ps cs]. reflexivity.
Qed.

Lemma advance_coins (d : Draws) (g : Game) :
  coins (advance d g)
  = filter (fun c => negb (Coin.offscreen c))
           (map (Coin.update (pipe_speed (score g)))
                (snd (spawn d (pipes g) (coins g)))).
Proof.
  unfold advance.
  destruct (spawn d (pipes g) (coins g)) as [ps cs]. reflexivity.
Qed.

(** C5. The speed of a frame is the base speed plus the floor of a tenth of
    the score: 3 up to score 9, 4 at score 10, and never lower for a higher
    score; it is the speed every pipe and coin of the frame moves by. *)
Theorem pipe_speed_steps :
  (forall s : Z,
      0 <= s ->
      pipe_speed s = PIPE_SPEED_BASE + s / 10
      /\ 10 * (pipe_speed s - PIPE_SPEED_BASE) <= s
         < 10 * (pipe_speed s - PIPE_SPEED_BASE) + 10)
  /\ pipe_speed 0 = PIPE_SPEED_BASE
  /\ pipe_speed 9 = PIPE_SPEED_BASE
  /\ pipe_speed 10 = PIPE_SPEED_BASE + 1
  /\ (forall s1 s2 : Z, s1 <= s2 -> pipe_speed s1 <= pipe_speed s2)
  /\ (forall (d : Draws) (g : Game),
         pipes (advance d g)
         = filter (fun p => negb (Pipe.offscreen p))
                  (map (Pipe.update (pipe_speed (score g)))
                       (spawned_pipes d g))
         /\ coins (advance d g)
            = filter (fun c => negb (Coin.offscreen c))
                     (map (Coin.update (pipe_speed (score g)))
                          (snd (spawn d (pipes g) (coins g))))).
Proof.
  repeat split; try reflexivity.
  - unfold pipe_speed, Py.floordiv.
    pose proof (Z.mul_div_le s 10). lia.
  - unfold pipe_speed, Py.floordiv.
    pose proof (Z.mul_succ_div_gt s 10). lia.
  - apply pipe_speed_mono; assumption.
  - apply advance_pipes.
  - apply advance_coins.
Qed.

Lemma pipe_speed_steps_witness :
  pipe_speed 25 = PIPE_SPEED_BASE + 25 / 10
  /\ pipe_speed 9 <= pipe_speed 10.
Proof.
  destruct pipe_speed_steps as (Hfloor & _ & _ & _ & Hmono & _).
  split.
  - apply (Hfloor 25). lia.
  - apply (Hmono 9 10). lia.
Defined.

(* ------------------------------------------------------------------ *)
(** ** The two loops of the collision pass *)

Lemma pipe_pass_acc (br : Rect.t) (bx : Z) (ps : list Pipe.t) :
  forall (seen : list Pipe.t) (hit : bool) (sc : Z),
    fold_left (pipe_step br bx) ps (seen, hit, sc)
    = (seen ++ map (mark bx) ps,
       hit || existsb (hits_pipe br) ps,
       sc + Z.of_nat (List.length (filter (flips bx) ps))).
Proof.
  induction ps as [|p ps IH]; intros seen hit sc; simpl.
  - now rewrite app_nil_r, orb_false_r, Z.add_0_r.
  - change (mark bx p) with (if flips bx p then Pipe.set_passed p else p).
    destruct (flips bx p) eqn:Hf; rewrite IH; rewrite <- app_assoc;
      cbn [app List.length];
      destruct (hits_pipe br p), hit; cbn [orb];
      f_equal; try reflexivity; rewrite ?Nat2Z.inj_succ; lia.
Qed.

Lemma pipe_pass_spec (br : Rect.t) (bx : Z) (ps : list Pipe.t) (sc : Z) :
  pipe_pass br bx ps sc
  = (map (mark bx) ps, existsb (hits_pipe br) ps,
     sc + Z.of_nat (List.length (filter (flips bx) ps))).
Proof. unfold pipe_pass. now rewrite pipe_pass_acc. Qed.

Lemma remove_first_app (c : Coin.t) (pre rest : list Coin.t) :
  ~ In c pre -> remove_first c (pre ++ c :: rest) = pre ++ rest.
Proof.
  induction pre as [|a pre IH]; intro Hnin; simpl.
  - destruct (Coin.eq_dec c c); [reflexivity|congruence].
  - destruct (Coin.eq_dec a c) as [->|Hne].
    + exfalso. apply Hnin. now left.
    + f_equal. apply IH. intro Hin. apply Hnin. now right.
Qed.

Lemma coin_step_touch (br : Rect.t) (live : list Coin.t) (sc : Z)
    (parts : list Particle.t) (c : Coin.t) :
  touches br c = true ->
  coin_step br (live, sc, parts) c
  = (remove_first c live, sc + COIN_BONUS, parts ++ burst c).
Proof. unfold coin_step, touches. intros ->. reflexivity. Qed.

Lemma coin_step_miss (br : Rect.t) (acc : list Coin.t * Z * list Particle.t)
    (c : Coin.t) :
  touches br c = false -> coin_step br acc c = acc.
Proof.
  unfold coin_step, touches. destruct acc as [[live sc] parts].
  intros ->. reflexivity.
Qed.

Lemma coin_pass_acc (br : Rect.t) (todo : list Coin.t) :
  forall (pre : list Coin.t) (sc : Z) (parts : list Particle.t),
    Forall (fun c => touches br c = false) pre ->
    fold_left (coin_step br) todo (pre ++ todo, sc, parts)
    = (pre ++ filter (fun c => negb (touches br c)) todo,
       sc + COIN_BONUS * Z.of_nat (List.length (filter (touches br) todo)),
       parts ++ flat_map burst (filter (touches br) todo)).
Proof.
  induction todo as [|c todo IH]; intros pre sc parts Hpre;
    cbn [fold_left filter].
  - cbn [flat_map List.length]. rewrite !app_nil_r. f_equal. f_equal. lia.
  - destruct (touches br c) eqn:Ht; cbn [negb].
    + rewrite coin_step_touch by assumption.
      rewrite remove_first_app.
      * rewrite IH by assumption. cbn [flat_map List.length].
        rewrite <- app_assoc, Nat2Z.inj_succ.
        f_equal. f_equal. lia.
      * intro Hin. rewrite Forall_forall in Hpre.
        specialize (Hpre c Hin). congruence.
    + rewrite coin_step_miss by assumption.
      replace (pre ++ c :: todo) with ((pre ++ [c]) ++ todo)
        by (rewrite <- app_assoc; reflexivity).
      rewrite IH.
      * now rewrite <- app_assoc.
      * apply Forall_app. split; [assumption|]. now constructor.
Qed.

Lemma coin_pass_spec (br : Rect.t) (cs : list Coin.t) (sc : Z)
    (parts : list Particle.t) :
  coin_pass br cs sc parts
  = (filter (fun c => negb (touches br c)) cs,
     sc + COIN_BONUS * Z.of_nat (List.length (filter (touches br) cs)),
     parts ++ flat_map burst (filter (touches br) cs)).
Proof.
  unfold coin_pass. apply (coin_pass_acc br cs [] sc parts). constructor.
Qed.

(** The collision pass, field by field. *)
Lemma collisions_spec (d : Draws) (g : Game) (br : Rect.t) :
  bird_rect (bird g) = Some br ->
  exists g' : Game,
    collisions d g = Some g'
    /\ bird g' = bird g
    /\ pipes g' = map (mark (Bird.x (bird g))) (pipes g)
    /\ coins g' = filter (fun c => negb (touches br c)) (coins g)
    /\ particles g'
       = particles g ++ flat_map burst (filter (touches br) (coins g))
    /\ score g'
       = score g + earned br (Bird.x (bird g)) (pipes g) (coins g)
    /\ state g' = (if hit_at br g then gameover else state g)
    /\ highscore g'
       = (if hit_at br g && (highscore g <? score g')
          then score g' else highscore g)
    /\ hs_file g'
       = (if hit_at br g && (highscore g <? score g')
          then HighScore.save_highscore (disk d) (score g') (hs_file g)
          else hs_file g)
    /\ paused g' = paused g
    /\ just_started_cooldown g' = just_started_cooldown g.
Proof.
  intro Hbr. unfold collisions. rewrite Hbr.
  rewrite pipe_pass_spec, coin_pass_spec.
  eexists. split; [reflexivity|]. cbn [bird pipes coins particles score state
    highscore hs_file paused just_started_cooldown].
  assert (Hhit : (if on_floor (bird g) || on_ceiling (bird g)
                  then true else existsb (hits_pipe br) (pipes g))
                 = hit_at br g).
  { unfold hit_at. destruct (existsb _ _), (on_floor _), (on_ceiling _);
      reflexivity. }
  rewrite Hhit. unfold earned.
  rewrite Z.add_assoc. repeat split; reflexivity.
Qed.

(** The update of a frame in play, field by field, from the session as the
    collision pass finds it. *)
Lemma update_spec (d : Draws) (g : Game) (br : Rect.t) :
  state g = playing -> paused g = false ->
  bird_rect (bird (advance d g)) = Some br ->
  exists g' : Game,
    update d g = Some g'
    /\ pipes g' = map (mark (Bird.x (bird g))) (pipes (advance d g))
    /\ coins g'
       = filter (fun c => negb (touches br c)) (coins (advance d g))
    /\ particles g'
       = particles (advance d g)
         ++ flat_map burst (filter (touches br) (coins (advance d g)))
    /\ score g'
       = score g + earned br (Bird.x (bird g)) (pipes (advance d g))
                          (coins (advance d g))
    /\ state g' = (if hit_at br (advance d g) then gameover else playing)
    /\ highscore g'
       = (if hit_at br (advance d g) && (highscore g <? score g')
          then score g' else highscore g)
    /\ hs_file g'
       = (if hit_at br (advance d g) && (highscore g <? score g')
          then HighScore.save_highscore (disk d) (score g') (hs_file g)
          else hs_file g).
Proof.
  intros Hst Hp Hbr. unfold update. rewrite Hst, Hp. cbn [state_eqb negb andb].
  destruct (collisions_spec d (advance d g) br Hbr)
    as (g' & Hc & _ & Hpi & Hco & Hpa & Hsc & Hgs & Hhs & Hfile & _ & _).
  assert (Hx : Bird.x (bird (advance d g)) = Bird.x (bird g)).
  { unfold advance. destruct (spawn d (pipes g) (coins g)). reflexivity. }
  assert (Hs : score (advance d g) = score g).
  { unfold advance. destruct (spawn d (pipes g) (coins g)). reflexivity. }
  assert (Hh : highscore (advance d g) = highscore g).
  { unfold advance. destruct (spawn d (pipes g) (coins g)). reflexivity. }
  assert (Hf : hs_file (advance d g) = hs_file g).
  { unfold advance. destruct (spawn d (pipes g) (coins g)). reflexivity. }
  assert (Hg : state (advance d g) = playing).
  { unfold advance. destruct (spawn d (pipes g) (coins g)). exact Hst. }
  rewrite Hx, Hs in *. rewrite Hh in Hhs, Hfile. rewrite Hf in Hfile.
  rewrite Hg in Hgs.
  exists g'. repeat split; assumption.
Qed.

Lemma hit_at_iff (br : Rect.t) (g : Game) :
  hit_at br g = true
  <-> (exists p : Pipe.t,
          In p (pipes g)
          /\ (Rect.colliderect br (Pipe.top_rect p) = true
              \/ Rect.colliderect br (Pipe.bottom_rect p) = true))
      \/ PrimFloat.leb (Py.float_of_int (HEIGHT - FLOOR_HEIGHT))
                       (Bird.y (bird g) + Py.float_of_int (Bird.h (bird g)))
         = true
      \/ PrimFloat.leb (Bird.y (bird g)) 0 = true.
Proof.
  unfold hit_at. rewrite !orb_true_iff, existsb_exists.
  unfold hits_pipe, on_floor, on_ceiling.
  split.
  - intros [[(p & Hin & Hp)|Hf]|Hc]; [left|right; left|right; right];
      try assumption.
    exists p. split; [assumption|]. now apply orb_true_iff in Hp.
  - intros [(p & Hin & Hp)|[Hf|Hc]]; [left; left|left; right|right];
      try assumption.
    exists p. split; [assumption|]. now apply orb_true_iff.
Qed.

(* ------------------------------------------------------------------ *)
(** ** Game over *)

(** *** Shapes: gaps, rectangles, heights cut to integers *)

Lemma randint_range (a b r : Z) :
  a <= b -> a <= Random.randint a b r <= b.
Proof.
  intro H. unfold Random.randint.
  pose proof (Z.mod_pos_bound r (b - a + 1)). lia.
Qed.

Lemma gap_y_min_eq :
  Py.int_of_float (Py.float_of_int HEIGHT * 0.2)%float = Some 128
  /\ Pipe.gap_y_min = 128.
Proof. split; vm_compute; reflexivity. Qed.

Lemma gap_y_max_eq : Pipe.gap_y_max = 370.
Proof. reflexivity. Qed.

Lemma init_gap_ok (x0 r : Z) : gap_ok (Pipe.init x0 r).
Proof.
  unfold gap_ok, Pipe.init. cbn [Pipe.gap_y].
  apply randint_range. destruct gap_y_min_eq as [_ ->].
  rewrite gap_y_max_eq. lia.
Qed.

Lemma Forall_filter_keep {A : Type} (P : A -> Prop) (f : A -> bool)
    (l : list A) :
  Forall P l -> Forall P (filter f l).
Proof.
  rewrite !Forall_forall. intros H a Ha. apply filter_In in Ha.
  apply H. tauto.
Qed.

Lemma colliderect_overlap (a b : Rect.t) :
  0 < Rect.w a -> 0 < Rect.h a -> 0 < Rect.w b -> 0 < Rect.h b ->
  (Rect.colliderect a b = true
   <-> Rect.x a < Rect.x b + Rect.w b /\ Rect.x b < Rect.x a + Rect.w a
       /\ Rect.y a < Rect.y b + Rect.h b /\ Rect.y b < Rect.y a + Rect.h a).
Proof.
  intros Hwa Hha Hwb Hhb. unfold Rect.colliderect.
  replace (Rect.w a =? 0) with false by (symmetry; apply Z.eqb_neq; lia).
  replace (Rect.h a =? 0) with false by (symmetry; apply Z.eqb_neq; lia).
  replace (Rect.w b =? 0) with false by (symmetry; apply Z.eqb_neq; lia).
  replace (Rect.h b =? 0) with false by (symmetry; apply Z.eqb_neq; lia).
  cbn [orb]. rewrite !andb_true_iff, !Z.ltb_lt. lia.
Qed.

Lemma hits_pipe_spec (br : Rect.t) (p : Pipe.t) :
  gap_ok p -> 0 < Pipe.w p -> 0 < Rect.w br -> 0 < Rect.h br ->
  (hits_pipe br p = true
   <-> (Rect.x br < Pipe.x p + Pipe.w p
        /\ Pipe.x p < Rect.x br + Rect.w br)
       /\ ((Rect.y br < Pipe.gap_y p /\ 0 < Rect.y br + Rect.h br)
           \/ (Pipe.gap_y p + PIPE_GAP < Rect.y br + Rect.h br
               /\ Rect.y br < HEIGHT - FLOOR_HEIGHT))).
Proof.
  intros Hgap Hw Hbw Hbh. unfold gap_ok in Hgap.
  destruct gap_y_min_eq as [_ Hmin]. rewrite Hmin, gap_y_max_eq in Hgap.
  unfold hits_pipe. rewrite orb_true_iff.
  rewrite !colliderect_overlap;
    cbn [Pipe.top_rect Pipe.bottom_rect Rect.x Rect.y Rect.w Rect.h];
    unfold HEIGHT, FLOOR_HEIGHT, PIPE_GAP in *; lia.
Qed.

Lemma advance_bird (d : Draws) (g : Game) :
  bird (advance d g) = Bird.update (bird g).
Proof. unfold advance. destruct (spawn d (pipes g) (coins g)). reflexivity. Qed.

Lemma advance_pipe_shaped (d : Draws) (g : Game) :
  Forall pipe_shaped (pipes g) -> Forall pipe_shaped (pipes (advance d g)).
Proof.
  intro H. rewrite advance_pipes. apply Forall_filter_keep. apply Forall_map.
  apply (Forall_impl _ (P := pipe_shaped)); [intros p Hp; exact Hp|].
  assert (Hnew : pipe_shaped (Pipe.init (WIDTH + 20) (gap_r d))).
  { split; [apply init_gap_ok|reflexivity]. }
  unfold spawned_pipes, spawn.
  destruct (need_spawn (pipes g)); [|assumption].
  destruct (PrimFloat.ltb (coin_u d) 0.5); cbn [fst];
    (apply Forall_app; split; [assumption|]); now constructor.
Qed.

Lemma pos_shiftl_pow2 (k : Z) :
  0 < k -> Z.pos (Pos.shiftl 1 (Z.to_N k)) = 2 ^ k.
Proof.
  intro Hk. rewrite <- Z.shiftl_1_l.
  destruct k as [|p|p]; try lia.
  cbn [Z.to_N Pos.shiftl Z.shiftl].
  apply (Pos.iter_swap_gen _ _ Z.pos xO (Z.mul 2)). reflexivity.
Qed.

Lemma truncation_nonneg (q : Q) : (0 <= q)%Q -> truncation q = Qfloor q.
Proof.
  intro H. unfold truncation. apply Qle_bool_iff in H. now rewrite H.
Qed.

Lemma truncation_opp (q : Q) : (0 < q)%Q -> truncation (- q) = - Qfloor q.
Proof.
  intro H. unfold truncation.
  destruct (Qle_bool 0 (- q)) eqn:Hle.
  - apply Qle_bool_iff in Hle. exfalso.
    apply (Qlt_irrefl 0). apply Qlt_le_trans with q; [assumption|].
    apply Qopp_le_compat in Hle. rewrite Qopp_opp in Hle. exact Hle.
  - unfold Qceiling. now rewrite Qopp_opp.
Qed.

(** [int] of a float is the truncation of the float's exact value. *)
Lemma int_of_float_truncation (f : float) (q : Q) :
  Py.Q_of_float f = Some q -> Py.int_of_float f = Some (truncation q).
Proof.
  unfold Py.Q_of_float, Py.int_of_float.
  destruct (Prim2SF f) as [s|s| |s m e]; try discriminate.
  - intro H. injection H as <-. reflexivity.
  - cbv zeta. intro H. injection H as <-. f_equal.
    destruct (0 <=? e) eqn:He.
    + apply Z.leb_le in He. rewrite Z.shiftl_mul_pow2 by assumption.
      assert (Hpos : 0 < Z.pos m * 2 ^ e).
      { apply Z.mul_pos_pos; [lia|]. now apply Z.pow_pos_nonneg. }
      destruct s.
      * rewrite truncation_opp.
        -- now rewrite Qfloor_Z.
        -- change (0 * 1 < Z.pos m * 2 ^ e * 1). lia.
      * rewrite truncation_nonneg.
        -- now rewrite Qfloor_Z.
        -- change (0 * 1 <= Z.pos m * 2 ^ e * 1). lia.
    + apply Z.leb_gt in He. rewrite Z.shiftl_div_pow2 by lia.
      rewrite <- (pos_shiftl_pow2 (- e)) by lia.
      destruct s.
      * rewrite truncation_opp; [reflexivity|].
        cbv [Qlt Qnum Qden]. lia.
      * rewrite truncation_nonneg; [reflexivity|].
        cbv [Qle Qnum Qden]. lia.
Qed.

(** A float that is neither a NaN nor an infinity has an exact value. *)
Lemma Q_of_float_finite (f : float) :
  PrimFloat.is_finite f = true -> exists q : Q, Py.Q_of_float f = Some q.
Proof.
  unfold PrimFloat.is_finite, Py.Q_of_float, Prim2SF. intro H.
  apply negb_true_iff, orb_false_iff in H. destruct H as [Hnan Hinf].
  rewrite Hnan. destruct (PrimFloat.is_zero f); [eexists; reflexivity|].
  rewrite Hinf.
  repeat match goal with
         | |- context [let (_, _) := ?x in _] => destruct x
         end.
  match goal with
  | |- context [match ?x with Z0 => _ | Zpos _ => _ | Zneg _ => _ end] =>
      destruct x
  end; eexists; reflexivity.
Qed.

Lemma bird_rect_truncation (b : Bird.t) (q : Q) :
  Py.Q_of_float (Bird.y b) = Some q ->
  - 2 ^ 31 <= truncation q < 2 ^ 31 ->
  bird_rect b
  = Some (Rect.mk (Bird.x b) (truncation q) (Bird.w b) (Bird.h b)).
Proof.
  intros Hq [Hlo Hhi]. unfold bird_rect.
  rewrite (int_of_float_truncation _ _ Hq). unfold c_int.
  apply Z.leb_le in Hlo. apply Z.ltb_lt in Hhi. now rewrite Hlo, Hhi.
Qed.

Lemma hits_pipe_meets (x y w h : Z) (p : Pipe.t) :
  pipe_shaped p -> 0 < w -> 0 < h ->
  (Rect.colliderect (Rect.mk x y w h) (Pipe.top_rect p) = true
   \/ Rect.colliderect (Rect.mk x y w h) (Pipe.bottom_rect p) = true)
  <-> meets_pipe x y w h p.
Proof.
  intros [Hgap Hpw] Hw Hh.
  rewrite <- orb_true_iff. fold (hits_pipe (Rect.mk x y w h) p).
  apply (hits_pipe_spec (Rect.mk x y w h) p Hgap Hpw Hw Hh).
Qed.

(** C1. Take a frame in play, and let the bird's height after the move of
    the frame be a number whose integer part fits a C [int]. The box the
    collision pass builds has the bird's [x], [w] and [h] and that integer
    part for its height: the height is truncated, not rounded. The frame
    returns, and it ends in [gameover] exactly when the box collides with the
    top or the bottom rectangle of a live pipe, or
    [y + h >= HEIGHT - FLOOR_HEIGHT], or [y <= 0] (both on the height as a
    float, not truncated); otherwise the session stays in play. When the
    pipes are shaped as the constructor shapes them and the bird has a
    positive size, colliding with a pipe is, in coordinates: the box and the
    pipe overlap sideways, and the box reaches into the part above the gap or
    into the part below it. *)
Theorem gameover_iff :
  forall (d : Draws) (g : Game) (q : Q),
    state g = playing -> paused g = false ->
    Py.Q_of_float (Bird.y (bird (advance d g))) = Some q ->
    - 2 ^ 31 <= truncation q < 2 ^ 31 ->
    exists (br : Rect.t) (g' : Game),
      br = Rect.mk (Bird.x (bird (advance d g))) (truncation q)
                   (Bird.w (bird (advance d g))) (Bird.h (bird (advance d g)))
      /\ bird_rect (bird (advance d g)) = Some br
      /\ update d g = Some g'
      /\ (state g' = gameover
          <-> (exists p : Pipe.t,
                  In p (pipes (advance d g))
                  /\ (Rect.colliderect br (Pipe.top_rect p) = true
                      \/ Rect.colliderect br (Pipe.bottom_rect p) = true))
              \/ PrimFloat.leb
                   (Py.float_of_int (HEIGHT - FLOOR_HEIGHT))
                   (Bird.y (bird (advance d g))
                    + Py.float_of_int (Bird.h (bird (advance d g))))
                 = true
              \/ PrimFloat.leb (Bird.y (bird (advance d g))) 0 = true)
      /\ (Forall pipe_shaped (pipes g) ->
          0 < Bird.w (bird g) -> 0 < Bird.h (bird g) ->
          (state g' = gameover
           <-> (exists p : Pipe.t,
                   In p (pipes (advance d g))
                   /\ meets_pipe (Bird.x (bird (advance d g))) (truncation q)
                                 (Bird.w (bird (advance d g)))
                                 (Bird.h (bird (advance d g))) p)
               \/ PrimFloat.leb
                    (Py.float_of_int (HEIGHT - FLOOR_HEIGHT))
                    (Bird.y (bird (advance d g))
                     + Py.float_of_int (Bird.h (bird (advance d g))))
                  = true
               \/ PrimFloat.leb (Bird.y (bird (advance d g))) 0 = true))
      /\ (state g' <> gameover -> state g' = playing).
Proof.
  intros d g q Hst Hp Hq Hr.
  pose proof (bird_rect_truncation _ _ Hq Hr) as Hbr.
  destruct (update_spec d g _ Hst Hp Hbr)
    as (g' & Hu & _ & _ & _ & _ & Hgs & _).
  eexists. exists g'. split; [reflexivity|].
  split; [exact Hbr|]. split; [exact Hu|].
  match type of Hbr with _ = Some ?r => set (br := r) in * end.
  assert (Hgo : state g' = gameover <-> hit_at br (advance d g) = true).
  { rewrite Hgs. destruct (hit_at br (advance d g)); split;
      intro H; try reflexivity; discriminate H. }
  split; [rewrite Hgo; apply hit_at_iff|]. split.
  - intros Hsh Hbw Hbh. rewrite Hgo, hit_at_iff.
    apply advance_pipe_shaped with (d := d) in Hsh.
    rewrite Forall_forall in Hsh.
    assert (Hw : 0 < Bird.w (bird (advance d g)))
      by (rewrite advance_bird; exact Hbw).
    assert (Hh : 0 < Bird.h (bird (advance d g)))
      by (rewrite advance_bird; exact Hbh).
    apply or_iff_compat_r.
    split; intros (p & Hin & Hx); exists p; (split; [exact Hin|]);
      apply (hits_pipe_meets _ _ _ _ p (Hsh p Hin) Hw Hh); exact Hx.
  - rewrite Hgs. destruct (hit_at br (advance d g)); intro H;
      [now contradiction H|reflexivity].
Qed.

Lemma gameover_iff_witness :
  exists (p : Pipe.t) (g' : Game),
    update fixture_draws (fixture 100 [Pipe.update (-71) passing_pipe] [] 0)
    = Some g'
    /\ In p (pipes (advance fixture_draws
                      (fixture 100 [Pipe.update (-71) passing_pipe] [] 0)))
    /\ meets_pipe 80 100 34 24 p
    /\ on_floor (bird (advance fixture_draws
                         (fixture 100 [Pipe.update (-71) passing_pipe] [] 0)))
       = false
    /\ on_ceiling (bird (advance fixture_draws
                           (fixture 100 [Pipe.update (-71) passing_pipe] [] 0)))
       = false
    /\ state g' = gameover.
Proof.
  assert (Hq : exists q : Q,
             Py.Q_of_float
               (Bird.y (bird (advance fixture_draws
                  (fixture 100 [Pipe.update (-71) passing_pipe] [] 0))))
             = Some q
             /\ truncation q = 100).
  { eexists. split; vm_compute; reflexivity. }
  destruct Hq as (q & Hq & Ht).
  assert (Hr : - 2 ^ 31 <= truncation q < 2 ^ 31)
    by (rewrite Ht; split; [discriminate|reflexivity]).
  assert (Hm : meets_pipe 80 100 34 24 (Pipe.update 3 (Pipe.update (-71) passing_pipe))).
  { split; [split; reflexivity|]. left. split; reflexivity. }
  destruct (gameover_iff fixture_draws
              (fixture 100 [Pipe.update (-71) passing_pipe] [] 0) q
              eq_refl eq_refl Hq Hr)
    as (br & g' & _ & _ & Hu & _ & Hgeo & _).
  exists (Pipe.update 3 (Pipe.update (-71) passing_pipe)), g'.
  assert (Hin : In (Pipe.update 3 (Pipe.update (-71) passing_pipe))
                  (pipes (advance fixture_draws
                     (fixture 100 [Pipe.update (-71) passing_pipe] [] 0))))
    by (left; reflexivity).
  split; [exact Hu|]. split; [exact Hin|]. split; [exact Hm|].
  split; [reflexivity|]. split; [reflexivity|].
  apply Hgeo.
  - repeat constructor; vm_compute; discriminate.
  - reflexivity.
  - reflexivity.
  - left. eexists. split; [exact Hin|]. rewrite Ht. exact Hm.
Defined.

(** Each disjunct alone ends the game, and none of them leaves it running. *)
Example gameover_by_pipe_only :
  let a := advance fixture_draws (fixture 100 [Pipe.update (-71) passing_pipe] [] 0) in
  option_map state
    (update fixture_draws (fixture 100 [Pipe.update (-71) passing_pipe] [] 0))
  = Some gameover
  /\ on_floor (bird a) = false /\ on_ceiling (bird a) = false
  /\ option_map (fun br => existsb (hits_pipe br) (pipes a)) (bird_rect (bird a))
     = Some true.
Proof. vm_compute. repeat split. Qed.

Example gameover_by_floor_only :
  let a := advance fixture_draws (fixture 520 [near_pipe] [] 0) in
  option_map state (update fixture_draws (fixture 520 [near_pipe] [] 0))
  = Some gameover
  /\ on_floor (bird a) = true /\ on_ceiling (bird a) = false
  /\ option_map (fun br => existsb (hits_pipe br) (pipes a)) (bird_rect (bird a))
     = Some false.
Proof. vm_compute. repeat split. Qed.

Example gameover_by_ceiling_only :
  let a := advance fixture_draws (fixture (-1) [near_pipe] [] 0) in
  option_map state (update fixture_draws (fixture (-1) [near_pipe] [] 0))
  = Some gameover
  /\ on_floor (bird a) = false /\ on_ceiling (bird a) = true
  /\ option_map (fun br => existsb (hits_pipe br) (pipes a)) (bird_rect (bird a))
     = Some false.
Proof. vm_compute. repeat split. Qed.

Example no_gameover_without_hit :
  let a := advance fixture_draws (fixture 300 [near_pipe] [] 0) in
  option_map state (update fixture_draws (fixture 300 [near_pipe] [] 0))
  = Some playing
  /\ on_floor (bird a) = false /\ on_ceiling (bird a) = false
  /\ option_map (fun br => existsb (hits_pipe br) (pipes a)) (bird_rect (bird a))
     = Some false.
Proof. vm_compute. repeat split. Qed.

(** A first session: SPACE in the menu starts the game; left alone, the bird
    is still in play after 29 frames and lies on the floor on the 30th. *)
Example first_session :
  let g0 := main_init 4300 HighScore.Absent (fun i => i) in
  let start := ([KEYDOWN K_SPACE], fixture_draws) in
  let idle := ([], fixture_draws) in
  option_map state (frames (fun i => i) (start :: repeat idle 28) g0)
  = Some playing
  /\ option_map state (frames (fun i => i) (start :: repeat idle 29) g0)
     = Some gameover
  /\ option_map (fun g => Bird.y (bird g))
                (frames (fun i => i) (start :: repeat idle 29) g0)
     = Some 517.24999999999989%float.
Proof. vm_compute. repeat split. Qed.

(** A height that is not a number crashes the frame: [int(bird.y)] raises. *)
Example update_raises_on_nan :
  update fixture_draws (fixture PrimFloat.nan [near_pipe] [] 0) = None.
Proof. vm_compute. reflexivity. Qed.

(** So does a height beyond a C [int]: [pygame.Rect] refuses it. *)
Example update_raises_beyond_c_int :
  update fixture_draws (fixture 3e9 [near_pipe] [] 0) = None
  /\ update fixture_draws (fixture (-3e9) [near_pipe] [] 0) = None.
Proof. vm_compute. split; reflexivity. Qed.

(** C10. On a frame in play that is fatal, the session ends in [gameover]
    with the score raised by everything the collision pass earned (a point
    for each pipe that flipped, the bonus for each coin touched); the high
    score becomes the larger of the stored one and that score, and the file
    is written with that score exactly when it is larger. *)
Theorem fatal_frame_counts_points :
  forall (d : Draws) (g : Game) (br : Rect.t),
    state g = playing -> paused g = false ->
    bird_rect (bird (advance d g)) = Some br ->
    hit_at br (advance d g) = true ->
    exists g' : Game,
      update d g = Some g'
      /\ state g' = gameover
      /\ score g'
         = score g + earned br (Bird.x (bird g)) (pipes (advance d g))
                            (coins (advance d g))
      /\ highscore g' = Z.max (highscore g) (score g')
      /\ (highscore g < score g' ->
          hs_file g'
          = HighScore.save_highscore (disk d) (score g') (hs_file g))
      /\ (score g' <= highscore g -> hs_file g' = hs_file g).
Proof.
  intros d g br Hst Hp Hbr Hhit.
  destruct (update_spec d g br Hst Hp Hbr)
    as (g' & Hu & _ & _ & _ & Hsc & Hgs & Hhs & Hfile).
  rewrite Hhit in *. cbn [andb] in *.
  exists g'. repeat split; try assumption.
  - rewrite Hhs. destruct (highscore g <? score g') eqn:Hlt.
    + apply Z.ltb_lt in Hlt. lia.
    + apply Z.ltb_ge in Hlt. lia.
  - intro Hlt. apply Z.ltb_lt in Hlt. now rewrite Hlt in Hfile.
  - intro Hle. apply Z.ltb_ge in Hle. now rewrite Hle in Hfile.
Qed.

(** The fixture: the bird reaches the floor on the very frame on which it
    passes a pipe and touches a coin; the 6 points count for the high score,
    which was 2, and are written to the file. *)
Lemma fatal_frame_counts_points_witness :
  exists g' : Game,
    update fixture_draws (fixture 520 [passing_pipe; near_pipe] [coin_ahead 530] 2)
    = Some g'
    /\ state g' = gameover
    /\ score g' = 6
    /\ highscore g' = 6
    /\ hs_file g' = HighScore.Content "6".
Proof.
  destruct (fatal_frame_counts_points fixture_draws
              (fixture 520 [passing_pipe; near_pipe] [coin_ahead 530] 2)
              (Rect.mk 80 520 34 24) eq_refl eq_refl eq_refl eq_refl)
    as (g' & Hu & Hgs & Hsc & Hhs & Hw & _).
  exists g'.
  assert (Hsc6 : score g' = 6) by (rewrite Hsc; vm_compute; reflexivity).
  split; [exact Hu|]. split; [exact Hgs|]. split; [exact Hsc6|].
  split.
  - rewrite Hhs, Hsc6. reflexivity.
  - rewrite Hw; rewrite Hsc6; [reflexivity|vm_compute; reflexivity].
Defined.

(* ------------------------------------------------------------------ *)
(** ** Coins *)

Lemma burst_spec (c : Coin.t) :
  List.length (burst c) = 5%nat
  /\ Forall (fun q => Particle.x q = Coin.x c /\ Particle.y q = Coin.y c
                      /\ Particle.lifetime q = PARTICLE_LIFETIME) (burst c).
Proof. split; [reflexivity|]. unfold burst. simpl. repeat constructor. Qed.

Lemma length_flat_map_burst (cs : list Coin.t) :
  List.length (flat_map burst cs) = (5 * List.length cs)%nat.
Proof.
  induction cs as [|c cs IH]; [reflexivity|].
  cbn [flat_map]. rewrite length_app, IH.
  destruct (burst_spec c) as [-> _]. cbn [List.length]. lia.
Qed.

(** C6. On a frame in play, every coin whose rectangle the bird's box
    overlaps at the collision pass leaves the list, adds the bonus to the
    score and leaves five particles at its position; the other coins stay as
    they are and in their order. *)
Theorem coin_collection :
  forall (d : Draws) (g : Game) (br : Rect.t),
    state g = playing -> paused g = false ->
    bird_rect (bird (advance d g)) = Some br ->
    exists g' : Game,
      update d g = Some g'
      /\ coins g'
         = filter (fun c => negb (touches br c)) (coins (advance d g))
      /\ particles g'
         = particles (advance d g)
           ++ flat_map burst (filter (touches br) (coins (advance d g)))
      /\ score g'
         = score g
           + Z.of_nat (List.length (filter (flips (Bird.x (bird g)))
                                           (pipes (advance d g))))
           + COIN_BONUS
             * Z.of_nat (List.length (filter (touches br)
                                             (coins (advance d g))))
      /\ List.length (particles g')
         = (List.length (particles (advance d g))
            + 5 * List.length (filter (touches br) (coins (advance d g))))%nat
      /\ (forall c : Coin.t,
             In c (coins (advance d g)) -> touches br c = true ->
             ~ In c (coins g')
             /\ incl (burst c) (particles g')
             /\ List.length (burst c) = 5%nat
             /\ Forall (fun q => Particle.x q = Coin.x c
                                 /\ Particle.y q = Coin.y c
                                 /\ Particle.lifetime q = PARTICLE_LIFETIME)
                       (burst c))
      /\ (forall c : Coin.t,
             In c (coins (advance d g)) -> touches br c = false ->
             In c (coins g')).
Proof.
  intros d g br Hst Hp Hbr.
  destruct (update_spec d g br Hst Hp Hbr)
    as (g' & Hu & _ & Hco & Hpa & Hsc & _).
  exists g'. split; [assumption|]. split; [assumption|].
  split; [assumption|]. split; [|split; [|split]].
  - rewrite Hsc. unfold earned. lia.
  - rewrite Hpa, length_app, length_flat_map_burst. reflexivity.
  - intros c Hin Ht. split; [|split].
    + rewrite Hco, filter_In. intros [_ Hn]. rewrite Ht in Hn. discriminate.
    + rewrite Hpa. intros q Hq. apply in_or_app. right.
      apply in_flat_map. exists c. split; [|assumption].
      apply filter_In. now split.
    + apply burst_spec.
  - intros c Hin Ht. rewrite Hco, filter_In. split; [assumption|].
    now rewrite Ht.
Qed.

(** The fixture: of two coins the bird's box overlaps the first; it goes,
    the other stays, the score rises by 5 and five particles appear where
    the coin was. *)
Lemma coin_collection_witness :
  exists g' : Game,
    update fixture_draws
           (fixture 300 [near_pipe] [coin_ahead 310; coin_ahead 100] 0)
    = Some g'
    /\ coins g' = [Coin.update 3 (coin_ahead 100)]
    /\ score g' = 5
    /\ particles g' = repeat (Particle.init 100 310) 5.
Proof.
  destruct (coin_collection fixture_draws
              (fixture 300 [near_pipe] [coin_ahead 310; coin_ahead 100] 0)
              (Rect.mk 80 300 34 24) eq_refl eq_refl eq_refl)
    as (g' & Hu & Hco & Hpa & Hsc & _).
  exists g'. split; [exact Hu|]. split; [|split].
  - rewrite Hco. vm_compute. reflexivity.
  - rewrite Hsc. vm_compute. reflexivity.
  - rewrite Hpa. vm_compute. reflexivity.
Defined.

(* ------------------------------------------------------------------ *)
(** ** Reset *)

Lemma reset_fields (draw : Z -> Z) (g : Game) :
  let g' := set_cooldown 10 (reset_game draw g) in
  score g' = 0
  /\ bird g' = Bird.init BIRD_X 308
  /\ pipes g' = [Pipe.init 600 (draw 0); Pipe.init 750 (draw 1)]
  /\ coins g' = [] /\ particles g' = []
  /\ state g' = playing /\ paused g' = false
  /\ just_started_cooldown g' = 10
  /\ highscore g' = highscore g.
Proof. cbv zeta. repeat split. Qed.

(** C8. The primary action (SPACE, UP or the left mouse button) in the
    menu or after a game over resets the session: score 0; a new bird at
    rest whose box is centred on the middle of the screen; two pipes, not
    yet passed, at 600 and 750, right of the screen edge at 400; no coins and
    no particles; in play, not paused, and ten frames of lockout. *)
Theorem reset_on_primary_action :
  forall (draw : Z -> Z) (e : event) (g : Game),
    is_primary e = true ->
    state g = menu \/ state g = gameover ->
    let g' := handle_event draw e g in
    score g' = 0
    /\ bird g' = Bird.init BIRD_X 308
    /\ Bird.y (bird g') = 308%float
    /\ 2 * 308 + BIRD_HEIGHT = HEIGHT
    /\ Bird.vel (bird g') = 0%float
    /\ pipes g' = [Pipe.init 600 (draw 0); Pipe.init 750 (draw 1)]
    /\ List.length (pipes g') = 2%nat
    /\ Forall (fun p => WIDTH < Pipe.x p /\ Pipe.passed p = false) (pipes g')
    /\ coins g' = [] /\ particles g' = []
    /\ state g' = playing /\ paused g' = false
    /\ just_started_cooldown g' = 10.
Proof.
  intros draw e g Hprim Hst.
  assert (Hev : handle_event draw e g = set_cooldown 10 (reset_game draw g)).
  { destruct e as [|k|b|]; try discriminate Hprim.
    - destruct k; try discriminate Hprim;
        unfold handle_event, primary_action;
        destruct Hst as [-> | ->]; reflexivity.
    - cbn [is_primary] in Hprim. unfold handle_event, primary_action.
      rewrite Hprim. destruct Hst as [-> | ->]; reflexivity. }
  cbv zeta. rewrite Hev.
  repeat split; try reflexivity.
  repeat constructor.
Qed.

Lemma reset_on_primary_action_witness :
  let g' := handle_event (fun i => 40 * i + 3) (KEYDOWN K_SPACE)
              (main_init 4300 HighScore.Absent (fun i => i)) in
  score g' = 0 /\ List.length (pipes g') = 2%nat
  /\ state g' = playing /\ just_started_cooldown g' = 10.
Proof.
  pose proof (reset_on_primary_action (fun i => 40 * i + 3) (KEYDOWN K_SPACE)
                (main_init 4300 HighScore.Absent (fun i => i))
                eq_refl (or_introl eq_refl)) as H.
  cbv zeta in H. cbv zeta.
  destruct H as (Hs & _ & _ & _ & _ & _ & Hl & _ & _ & _ & Hg & _ & Hc).
  repeat split; assumption.
Defined.

(* ------------------------------------------------------------------ *)
(** ** Pipes: the gap *)

Lemma pipe_frame_some (bx s : Z) (p p' : Pipe.t) (pts : Z) :
  pipe_frame bx s p = Some (p', pts) ->
  Pipe.x p' = Pipe.x p - s /\ Pipe.w p' = Pipe.w p
  /\ Pipe.gap_y p' = Pipe.gap_y p
  /\ Pipe.offscreen p' = false
  /\ ((pts = 1 /\ Pipe.passed p = false /\ Pipe.passed p' = true
       /\ behind bx p')
      \/ (pts = 0 /\ Pipe.passed p' = Pipe.passed p
          /\ (Pipe.passed p = true \/ ~ behind bx p'))).
Proof.
  unfold pipe_frame, flips, behind.
  destruct (Pipe.offscreen (Pipe.update s p)) eqn:Hoff; [discriminate|].
  cbn [Pipe.update Pipe.passed Pipe.x Pipe.w].
  destruct (Pipe.passed p) eqn:Hpass; cbn [negb andb].
  - intro H. injection H as <- <-. cbn [Pipe.update Pipe.passed Pipe.x Pipe.w Pipe.gap_y].
    repeat split; try assumption. right. repeat split; try assumption. now left.
  - destruct (Pipe.x p - s + Pipe.w p <? bx) eqn:Hlt;
      intro H; injection H as <- <-;
      cbn [Pipe.update Pipe.set_passed Pipe.passed Pipe.x Pipe.w Pipe.gap_y];
      repeat split; try assumption.
    + left. apply Z.ltb_lt in Hlt. repeat split; assumption.
    + right. apply Z.ltb_ge in Hlt. repeat split; try assumption.
      right. lia.
Qed.

Lemma pipe_life_gap (bx : Z) (speeds : list Z) :
  forall (p pk : Pipe.t) (pts : Z),
    In (pk, pts) (pipe_life bx speeds p) ->
    Pipe.gap_y pk = Pipe.gap_y p /\ Pipe.w pk = Pipe.w p.
Proof.
  induction speeds as [|s rest IH]; intros p pk pts Hin; [contradiction|].
  cbn [pipe_life] in Hin.
  destruct (pipe_frame bx s p) as [[p' q]|] eqn:Hf; [|contradiction].
  apply pipe_frame_some in Hf. destruct Hf as (_ & Hw & Hg & _).
  destruct Hin as [Heq|Hin].
  - injection Heq as <- <-. now split.
  - apply IH in Hin. destruct Hin as [-> ->]. now split.
Qed.

Lemma mark_gap (bx : Z) (p : Pipe.t) :
  Pipe.gap_y (mark bx p) = Pipe.gap_y p.
Proof. unfold mark. destruct (flips bx p); reflexivity. Qed.

Lemma spawned_gap_ok (d : Draws) (g : Game) :
  Forall gap_ok (pipes g) -> Forall gap_ok (spawned_pipes d g).
Proof.
  intro H. unfold spawned_pipes, spawn.
  destruct (need_spawn (pipes g)); [|assumption].
  destruct (PrimFloat.ltb (coin_u d) 0.5); cbn [fst];
    (apply Forall_app; split; [assumption|]);
    constructor; [apply init_gap_ok|constructor|apply init_gap_ok|constructor].
Qed.

Lemma update_gap_ok (d : Draws) (g g' : Game) :
  Forall gap_ok (pipes g) -> update d g = Some g' -> Forall gap_ok (pipes g').
Proof.
  intros Hok Hu. unfold update in Hu.
  destruct (state_eqb (state g) playing && negb (paused g));
    [|injection Hu as <-; assumption].
  destruct (bird_rect (bird (advance d g))) as [br|] eqn:Hbr.
  - destruct (collisions_spec d (advance d g) br Hbr)
      as (g2 & Hc & _ & Hpi & _).
    rewrite Hc in Hu. injection Hu as <-. rewrite Hpi, advance_pipes.
    apply Forall_map. apply Forall_filter_keep. apply Forall_map.
    apply (Forall_impl _ (P := gap_ok)); [|now apply spawned_gap_ok].
    intros p Hp. unfold gap_ok in *. now rewrite mark_gap.
  - unfold collisions in Hu. rewrite Hbr in Hu. discriminate.
Qed.

Lemma handle_event_gap_ok (draw : Z -> Z) (e : event) (g : Game) :
  Forall gap_ok (pipes g) -> Forall gap_ok (pipes (handle_event draw e g)).
Proof.
  intro Hok.
  assert (Hprim : Forall gap_ok (pipes (primary_action draw g))).
  { unfold primary_action.
    destruct (state g); cbn [set_cooldown reset_game pipes map];
      try (repeat constructor; apply init_gap_ok).
    destruct ((just_started_cooldown g =? 0) && negb (paused g)); assumption. }
  destruct e as [|k|b|]; cbn [handle_event]; try assumption.
  - destruct k; cbn [set_running pipes]; try assumption;
      repeat match goal with
             | |- context [match state ?x with _ => _ end] =>
                 destruct (state x)
             end; cbn [set_paused pipes]; assumption.
  - destruct (b =? 1); assumption.
Qed.

(** C7. The constructor puts the gap between [int(HEIGHT * 0.2)], which is
    0.2 * HEIGHT = 128, and [HEIGHT - FLOOR_HEIGHT - PIPE_GAP - 20] = 370, so
    the top rectangle (of height [gap_y]) and the bottom rectangle (from
    [gap_y + PIPE_GAP] down to the floor) have a height of at least 0. Neither
    moving a pipe nor marking it passed changes the gap: through the whole
    life of the pipe the top rectangle has height [gap_y] and the bottom one
    starts at [gap_y + PIPE_GAP]. Every pipe of a session has such a gap. *)
Theorem pipe_gap_invariant :
  Py.int_of_float (Py.float_of_int HEIGHT * 0.2)%float = Some Pipe.gap_y_min
  /\ (forall x0 r : Z,
         ((2 # 10) * inject_Z HEIGHT
          <= inject_Z (Pipe.gap_y (Pipe.init x0 r)))%Q
         /\ Pipe.gap_y (Pipe.init x0 r)
            <= HEIGHT - FLOOR_HEIGHT - PIPE_GAP - 20
         /\ 0 <= Rect.h (Pipe.top_rect (Pipe.init x0 r))
         /\ 0 <= Rect.h (Pipe.bottom_rect (Pipe.init x0 r))
         /\ forall (bx : Z) (speeds : list Z) (pk : Pipe.t) (pts : Z),
             In (pk, pts) (pipe_life bx speeds (Pipe.init x0 r)) ->
             Pipe.gap_y pk = Pipe.gap_y (Pipe.init x0 r)
             /\ Rect.h (Pipe.top_rect pk) = Pipe.gap_y (Pipe.init x0 r)
             /\ Rect.y (Pipe.bottom_rect pk)
                = Pipe.gap_y (Pipe.init x0 r) + PIPE_GAP)
  /\ (forall (s : Z) (p : Pipe.t),
         Pipe.gap_y (Pipe.update s p) = Pipe.gap_y p
         /\ Pipe.gap_y (Pipe.set_passed p) = Pipe.gap_y p
         /\ Rect.h (Pipe.top_rect p) = Pipe.gap_y p
         /\ Rect.y (Pipe.bottom_rect p) = Pipe.gap_y p + PIPE_GAP
         /\ Rect.y (Pipe.bottom_rect p) + Rect.h (Pipe.bottom_rect p)
            = HEIGHT - FLOOR_HEIGHT)
  /\ (forall (m : nat) (f : HighScore.file) (draw : Z -> Z),
         Forall gap_ok (pipes (main_init m f draw)))
  /\ (forall (draw : Z -> Z) (e : event) (g : Game),
         Forall gap_ok (pipes g) ->
         Forall gap_ok (pipes (handle_event draw e g)))
  /\ (forall (d : Draws) (g g' : Game),
         Forall gap_ok (pipes g) -> update d g = Some g' ->
         Forall gap_ok (pipes g')).
Proof.
  split; [|split; [|split; [|split; [|split]]]].
  - destruct gap_y_min_eq as [-> ->]. reflexivity.
  - intros x0 r. pose proof (init_gap_ok x0 r) as Hok. unfold gap_ok in Hok.
    destruct gap_y_min_eq as [_ Hmin]. rewrite Hmin, gap_y_max_eq in Hok.
    split; [|split; [|split; [|split]]].
    + unfold Qle, Qmult, inject_Z, HEIGHT. cbn [Qnum Qden]. lia.
    + unfold HEIGHT, FLOOR_HEIGHT, PIPE_GAP. lia.
    + cbn [Pipe.top_rect Rect.h]. lia.
    + cbn [Pipe.bottom_rect Rect.h]. unfold HEIGHT, FLOOR_HEIGHT, PIPE_GAP. lia.
    + intros bx speeds pk pts Hin. apply pipe_life_gap in Hin.
      destruct Hin as [Hg _]. cbn [Pipe.top_rect Pipe.bottom_rect Rect.h Rect.y].
      rewrite Hg. repeat split.
  - intros s p. repeat split.
    cbn [Pipe.bottom_rect Rect.y Rect.h]. lia.
  - intros m f draw. cbn [main_init pipes].
    repeat constructor; apply init_gap_ok.
  - apply handle_event_gap_ok.
  - apply update_gap_ok.
Qed.

Lemma pipe_gap_invariant_witness :
  Forall (fun e => Pipe.gap_y (fst e) = 228
                   /\ Rect.h (Pipe.top_rect (fst e)) = 228
                   /\ Rect.y (Pipe.bottom_rect (fst e)) = 378)
         (pipe_life BIRD_X [3; 3] (Pipe.init 420 100)).
Proof.
  destruct pipe_gap_invariant as (_ & Hinit & _).
  destruct (Hinit 420 100) as (_ & _ & _ & _ & Hlife).
  apply Forall_forall. intros [pk pts] Hin.
  destruct (Hlife BIRD_X [3; 3] pk pts Hin) as (Hg & Ht & Hb).
  cbn [fst]. rewrite Hg, Ht, Hb. vm_compute. repeat split.
Defined.

(* ------------------------------------------------------------------ *)
(** ** Pipes: the passed flag *)

(** What the frame does to the list of pipes is what [pipe_frame] does to
    each of them. *)
Lemma pass_as_frames (bx s : Z) (ps : list Pipe.t) :
  map (mark bx)
      (filter (fun p => negb (Pipe.offscreen p)) (map (Pipe.update s) ps))
  = flat_map (kept bx s) ps
  /\ Z.of_nat (List.length
                 (filter (flips bx)
                         (filter (fun p => negb (Pipe.offscreen p))
                                 (map (Pipe.update s) ps))))
     = sum (map (points bx s) ps).
Proof.
  induction ps as [|p ps [IHm IHs]]; [split; reflexivity|].
  cbn [map filter flat_map sum fold_right].
  fold (sum (map (points bx s) ps)).
  unfold kept at 1, points at 1, pipe_frame.
  destruct (Pipe.offscreen (Pipe.update s p)); cbn [negb map filter].
  - split; [exact IHm|]. rewrite IHs. lia.
  - change (mark bx (Pipe.update s p))
      with (if flips bx (Pipe.update s p)
            then Pipe.set_passed (Pipe.update s p) else Pipe.update s p).
    destruct (flips bx (Pipe.update s p)); cbn [List.length app].
    + split; [now rewrite IHm|]. rewrite Nat2Z.inj_succ, IHs. lia.
    + split; [now rewrite IHm|]. rewrite IHs. lia.
Qed.

Lemma life_after_passed (bx : Z) (speeds : list Z) :
  forall p : Pipe.t,
    Pipe.passed p = true ->
    forall (pk : Pipe.t) (pts : Z),
      In (pk, pts) (pipe_life bx speeds p) -> pts = 0 /\ Pipe.passed pk = true.
Proof.
  induction speeds as [|s rest IH]; intros p Hp pk pts Hin; [contradiction|].
  cbn [pipe_life] in Hin.
  destruct (pipe_frame bx s p) as [[p' q]|] eqn:Hf; [|contradiction].
  apply pipe_frame_some in Hf.
  destruct Hf as (_ & _ & _ & _ & [(_ & Hno & _)|(Hq & Hp' & _)]);
    [congruence|].
  rewrite Hp in Hp'.
  destruct Hin as [Heq|Hin].
  - injection Heq as <- <-. now split.
  - now apply (IH p' Hp').
Qed.

Lemma total_after_passed (bx : Z) (speeds : list Z) :
  forall p : Pipe.t,
    Pipe.passed p = true -> total_points (pipe_life bx speeds p) = 0.
Proof.
  induction speeds as [|s rest IH]; intros p Hp; [reflexivity|].
  cbn [pipe_life].
  destruct (pipe_frame bx s p) as [[p' q]|] eqn:Hf; [|reflexivity].
  apply pipe_frame_some in Hf.
  destruct Hf as (_ & _ & _ & _ & [(_ & Hno & _)|(Hq & Hp' & _)]);
    [congruence|].
  rewrite Hp in Hp'. unfold total_points in *.
  cbn [map snd fold_right]. rewrite (IH p' Hp'). lia.
Qed.

Lemma total_points_bound (bx : Z) (speeds : list Z) :
  forall p : Pipe.t, 0 <= total_points (pipe_life bx speeds p) <= 1.
Proof.
  induction speeds as [|s rest IH]; intro p; [cbn; lia|].
  cbn [pipe_life].
  destruct (pipe_frame bx s p) as [[p' q]|] eqn:Hf; [|cbn; lia].
  apply pipe_frame_some in Hf.
  unfold total_points in *. cbn [map snd fold_right].
  destruct Hf as (_ & _ & _ & _ & [(Hq & _ & Hp' & _)|(Hq & _)]).
  - pose proof (total_after_passed bx rest p' Hp') as H0.
    unfold total_points in H0. rewrite H0. lia.
  - specialize (IH p'). lia.
Qed.

Lemma life_first_behind (bx : Z) (speeds : list Z) :
  forall p : Pipe.t,
    Pipe.passed p = false ->
    forall (k : nat) (pk : Pipe.t) (pts : Z),
      nth_error (pipe_life bx speeds p) k = Some (pk, pts) ->
      (pts = 1
       <-> behind bx pk
           /\ forall (j : nat) (pj : Pipe.t) (qj : Z),
               (j < k)%nat ->
               nth_error (pipe_life bx speeds p) j = Some (pj, qj) ->
               ~ behind bx pj)
      /\ (pts = 0 \/ pts = 1)
      /\ (Pipe.passed pk = true
          <-> exists (j : nat) (pj : Pipe.t) (qj : Z),
                (j <= k)%nat
                /\ nth_error (pipe_life bx speeds p) j = Some (pj, qj)
                /\ behind bx pj).
Proof.
  induction speeds as [|s rest IH]; intros p Hp k pk pts Hnth.
  { destruct k; discriminate Hnth. }
  cbn [pipe_life] in *.
  destruct (pipe_frame bx s p) as [[p' q]|] eqn:Hf;
    [|destruct k; discriminate Hnth].
  apply pipe_frame_some in Hf.
  destruct Hf as (_ & _ & _ & _ & Hcase).
  destruct k as [|k].
  - (* the first pass the pipe is in *)
    cbn [nth_error] in Hnth. injection Hnth as <- <-.
    destruct Hcase as [(Hq & _ & Hp' & Hb)|(Hq & Hp' & Hnb)].
    + split; [|split].
      * split; [intros _; split; [assumption|intros j pj qj Hj; lia]
               |intros _; assumption].
      * now right.
      * split; [intros _|intros _; assumption].
        exists 0%nat, p', q. repeat split; [lia|assumption].
    + rewrite Hp in Hp'. destruct Hnb as [Hnb|Hnb]; [congruence|].
      split; [|split].
      * split; [intro H; lia|intros [Hb _]; contradiction].
      * now left.
      * split; [intro H; congruence|].
        intros (j & pj & qj & Hj & Hnth & Hb).
        assert (j = 0%nat) by lia. subst j.
        cbn [nth_error] in Hnth. injection Hnth as <- <-. contradiction.
  - (* a later pass *)
    cbn [nth_error] in Hnth.
    destruct Hcase as [(Hq & _ & Hp' & Hb)|(Hq & Hp' & Hnb)].
    + (* flipped on the first pass: nothing more to gain *)
      destruct (life_after_passed bx rest p' Hp' pk pts
                  (nth_error_In _ _ Hnth)) as [Hpts Hpk].
      split; [|split].
      * split; [intro H; lia|].
        intros [_ Hall]. exfalso.
        apply (Hall 0%nat p' q); [lia|reflexivity|assumption].
      * now left.
      * split; [intros _|intros _; assumption].
        exists 0%nat, p', q. repeat split; [lia|assumption].
    + rewrite Hp in Hp'. destruct Hnb as [Hnb|Hnb]; [congruence|].
      destruct (IH p' Hp' k pk pts Hnth) as (Hone & Hrange & Hpass).
      split; [|split].
      * rewrite Hone. split.
        -- intros [Hb Hall]. split; [assumption|].
           intros [|j] pj qj Hj Hn.
           ++ cbn [nth_error] in Hn. injection Hn as <- <-. assumption.
           ++ cbn [nth_error] in Hn. apply (Hall j pj qj); [lia|assumption].
        -- intros [Hb Hall]. split; [assumption|].
           intros j pj qj Hj Hn.
           apply (Hall (S j) pj qj); [lia|assumption].
      * assumption.
      * rewrite Hpass. split.
        -- intros (j & pj & qj & Hj & Hn & Hb).
           exists (S j), pj, qj. repeat split; [lia|assumption|assumption].
        -- intros ([|j] & pj & qj & Hj & Hn & Hb).
           ++ cbn [nth_error] in Hn. injection Hn as <- <-. contradiction.
           ++ exists j, pj, qj. repeat split; [lia|assumption|assumption].
Qed.

(** C4. In a frame in play the pipes after the collision pass, and the
    points they add, are those of [pipe_frame] pipe by pipe. Over the life of
    a pipe the flag goes from false to true at most once, namely on the first
    collision pass that finds the pipe's right edge strictly left of the
    bird, and that pass adds exactly one point; every other pass adds none,
    and a pipe that is already passed never adds a point again. *)
Theorem passed_flag_once :
  (forall (d : Draws) (g : Game) (br : Rect.t),
      state g = playing -> paused g = false ->
      bird_rect (bird (advance d g)) = Some br ->
      exists g' : Game,
        update d g = Some g'
        /\ pipes g'
           = flat_map (kept (Bird.x (bird g)) (pipe_speed (score g)))
                      (spawned_pipes d g)
        /\ score g'
           = score g
             + sum (map (points (Bird.x (bird g)) (pipe_speed (score g)))
                        (spawned_pipes d g))
             + COIN_BONUS
               * Z.of_nat (List.length (filter (touches br)
                                               (coins (advance d g)))))
  /\ (forall (bx : Z) (speeds : list Z) (p : Pipe.t),
         0 <= total_points (pipe_life bx speeds p) <= 1
         /\ (Pipe.passed p = true ->
             forall (pk : Pipe.t) (pts : Z),
               In (pk, pts) (pipe_life bx speeds p) ->
               pts = 0 /\ Pipe.passed pk = true)
         /\ (Pipe.passed p = false ->
             forall (k : nat) (pk : Pipe.t) (pts : Z),
               nth_error (pipe_life bx speeds p) k = Some (pk, pts) ->
               (pts = 1
                <-> behind bx pk
                    /\ forall (j : nat) (pj : Pipe.t) (qj : Z),
                        (j < k)%nat ->
                        nth_error (pipe_life bx speeds p) j = Some (pj, qj) ->
                        ~ behind bx pj)
               /\ (pts = 0 \/ pts = 1)
               /\ (Pipe.passed pk = true
                   <-> exists (j : nat) (pj : Pipe.t) (qj : Z),
                         (j <= k)%nat
                         /\ nth_error (pipe_life bx speeds p) j
                            = Some (pj, qj)
                         /\ behind bx pj))).
Proof.
  split.
  - intros d g br Hst Hp Hbr.
    destruct (update_spec d g br Hst Hp Hbr)
      as (g' & Hu & Hpi & _ & _ & Hsc & _).
    exists g'. split; [assumption|].
    destruct (pass_as_frames (Bird.x (bird g)) (pipe_speed (score g))
                             (spawned_pipes d g)) as [Hm Hs].
    split.
    + now rewrite Hpi, advance_pipes.
    + rewrite Hsc. unfold earned. rewrite advance_pipes at 1.
      rewrite Hs. lia.
  - intros bx speeds p. split; [apply total_points_bound|]. split.
    + apply life_after_passed.
    + apply life_first_behind.
Qed.

(** A pipe whose right edge is at 86 moves by 3 a frame: the edge is at 83,
    80, 77, 74 in the four passes; the third is the first to find it left of
    the bird at 80 and is the one that scores. *)
Lemma passed_flag_once_witness :
  exists pk : Pipe.t,
    map snd (pipe_life BIRD_X [3; 3; 3; 3] (Pipe.update (-4) passing_pipe))
    = [0; 0; 1; 0]
    /\ nth_error (pipe_life BIRD_X [3; 3; 3; 3]
                            (Pipe.update (-4) passing_pipe)) 2
       = Some (pk, 1)
    /\ behind BIRD_X pk
    /\ Pipe.passed pk = true.
Proof.
  eexists. split; [vm_compute; reflexivity|].
  split; [vm_compute; reflexivity|].
  destruct passed_flag_once as [_ Hlife].
  destruct (Hlife BIRD_X [3; 3; 3; 3] (Pipe.update (-4) passing_pipe))
    as (_ & _ & Hfresh).
  destruct (Hfresh eq_refl 2%nat _ 1 eq_refl) as (Hone & _ & Hpass).
  split.
  - apply Hone. reflexivity.
  - apply Hpass. eexists 2%nat, _, _.
    split; [lia|]. split; [reflexivity|]. apply Hone. reflexivity.
Defined.

(* ------------------------------------------------------------------ *)
(** ** The high-score store *)

Section Strip.

Import HighScore.

Lemma lstrip_idem (l : list ascii) : lstrip (lstrip l) = lstrip l.
Proof.
  induction l as [|c r IH]; [reflexivity|].
  cbn [lstrip]. destruct (is_space c) eqn:Hc; [assumption|].
  cbn [lstrip]. now rewrite Hc.
Qed.

Lemma lstrip_snoc (l : list ascii) (c : ascii) :
  is_space c = false -> lstrip (l ++ [c]) = lstrip l ++ [c].
Proof.
  intro Hc. induction l as [|a r IH]; cbn [app lstrip].
  - now rewrite Hc.
  - destruct (is_space a); [assumption|reflexivity].
Qed.

Lemma lstrip_head (l : list ascii) :
  match lstrip l with
  | [] => True
  | c :: _ => is_space c = false
  end.
Proof.
  induction l as [|a r IH]; [exact I|].
  cbn [lstrip]. destruct (is_space a) eqn:Ha; assumption.
Qed.

Lemma lstrip_no_space (l : list ascii) :
  Forall (fun c => is_space c = false) l -> lstrip l = l.
Proof. intros [|c r Hc _]; [reflexivity|]. cbn [lstrip]. now rewrite Hc. Qed.

Lemma strip_idem (l : list ascii) : strip (strip l) = strip l.
Proof.
  unfold strip.
  assert (Hfix : lstrip (rev (lstrip (rev (lstrip l))))
                 = rev (lstrip (rev (lstrip l)))).
  { pose proof (lstrip_head l) as Hh.
    destruct (lstrip l) as [|c r]; [reflexivity|].
    cbn [rev]. rewrite (lstrip_snoc _ _ Hh), rev_app_distr.
    cbn [rev app lstrip]. now rewrite Hh. }
  rewrite Hfix, rev_involutive, lstrip_idem. reflexivity.
Qed.

Lemma strip_no_space (l : list ascii) :
  Forall (fun c => is_space c = false) l -> strip l = l.
Proof.
  intro H. unfold strip. rewrite (lstrip_no_space l H).
  rewrite lstrip_no_space; [apply rev_involutive|].
  now apply Forall_rev.
Qed.

Lemma int_of_str_strip (m : nat) (l : list ascii) :
  int_of_str m (strip l) = int_of_str m l.
Proof. unfold int_of_str. now rewrite strip_idem. Qed.

(** What [load_highscore] returns for a file with a text. *)
Lemma load_content (m : nat) (s : string) :
  load_highscore m (Content s)
  = match int_of_str m (list_ascii_of_string s) with
    | Some n => n
    | None => 0
    end.
Proof.
  cbn [load_highscore].
  destruct (strip (list_ascii_of_string s)) as [|c r] eqn:Hs.
  - unfold int_of_str. rewrite Hs. reflexivity.
  - rewrite <- Hs, int_of_str_strip. reflexivity.
Qed.

Lemma digit_not_space (c : ascii) : is_digit c = true -> is_space c = false.
Proof.
  unfold is_digit, digit, is_space.
  destruct ((48 <=? nat_of_ascii c)%nat && (nat_of_ascii c <=? 57)%nat)
    eqn:Hd; [|discriminate].
  intros _. apply andb_true_iff in Hd. destruct Hd as [H1 H2].
  apply Nat.leb_le in H1, H2.
  cbv zeta. rewrite !orb_false_iff, !andb_false_iff, !Nat.leb_gt, !Nat.eqb_neq.
  lia.
Qed.

Lemma digit_not_underscore (c : ascii) :
  is_digit c = true -> Ascii.eqb c "_"%char = false.
Proof.
  intro H. destruct (Ascii.eqb c "_"%char) eqn:He; [|reflexivity].
  apply Ascii.eqb_eq in He. subst c. discriminate H.
Qed.

Lemma digit_value (c : ascii) :
  is_digit c = true -> digit c = Some (Z.of_nat (nat_of_ascii c - 48)).
Proof.
  unfold is_digit, digit.
  destruct ((48 <=? nat_of_ascii c)%nat && (nat_of_ascii c <=? 57)%nat);
    [reflexivity|discriminate].
Qed.

Lemma digits_all (ds : list ascii) :
  forall acc : Z,
    forallb is_digit ds = true ->
    digits acc false ds
    = Some (fold_left (fun a c => 10 * a + Z.of_nat (nat_of_ascii c - 48))
                      ds acc).
Proof.
  induction ds as [|c r IH]; intros acc Hall; [reflexivity|].
  cbn [forallb] in Hall. apply andb_true_iff in Hall. destruct Hall as [Hc Hr].
  cbn [digits fold_left].
  rewrite (digit_not_underscore c Hc), (digit_value c Hc). now apply IH.
Qed.

Lemma unsigned_all (ds : list ascii) :
  ds <> [] -> forallb is_digit ds = true -> unsigned ds = Some (dec_value ds).
Proof.
  intros Hne Hall. destruct ds as [|c r]; [congruence|].
  cbn [forallb] in Hall. apply andb_true_iff in Hall. destruct Hall as [Hc Hr].
  unfold unsigned, dec_value. cbn [fold_left].
  rewrite (digit_value c Hc), (digits_all r _ Hr). reflexivity.
Qed.

Lemma dec_value_nonneg (ds : list ascii) : 0 <= dec_value ds.
Proof.
  unfold dec_value.
  assert (H : forall acc, 0 <= acc ->
                0 <= fold_left (fun a c => 10 * a
                                           + Z.of_nat (nat_of_ascii c - 48))
                               ds acc).
  { induction ds as [|c r IH]; intros acc Hacc; [assumption|].
    cbn [fold_left]. apply IH. lia. }
  apply H. lia.
Qed.


End Strip.

Lemma too_long_few_digits (m : nat) (l : list ascii) :
  (List.length (filter HighScore.is_digit l) <= 640)%nat ->
  HighScore.too_long m l = false.
Proof.
  intro H. unfold HighScore.too_long.
  replace (640 <? List.length (filter HighScore.is_digit l))%nat with false;
    [reflexivity|].
  symmetry. apply Nat.ltb_ge. lia.
Qed.

Lemma int_of_str_digits (m : nat) (ds : list ascii) :
  ds <> [] -> forallb HighScore.is_digit ds = true ->
  (List.length ds <= 640)%nat ->
  HighScore.int_of_str m ds = Some (dec_value ds)
  /\ HighScore.int_of_str m ("-"%char :: ds) = Some (- dec_value ds).
Proof.
  intros Hne Hall Hlen.
  assert (Hns : Forall (fun c => HighScore.is_space c = false) ds).
  { apply Forall_forall. intros c Hc. apply digit_not_space.
    rewrite forallb_forall in Hall. now apply Hall. }
  pose proof (filter_length_le HighScore.is_digit ds) as Hfl.
  split; unfold HighScore.int_of_str.
  - rewrite (strip_no_space ds Hns).
    rewrite too_long_few_digits by lia.
    destruct ds as [|c r] eqn:Hds; [congruence|].
    assert (Hc : HighScore.is_digit c = true).
    { cbn [forallb] in Hall. now apply andb_true_iff in Hall. }
    assert (Hm : Ascii.eqb c "-"%char = false).
    { destruct (Ascii.eqb c "-"%char) eqn:He; [|reflexivity].
      apply Ascii.eqb_eq in He. subst c. discriminate Hc. }
    assert (Hp : Ascii.eqb c "+"%char = false).
    { destruct (Ascii.eqb c "+"%char) eqn:He; [|reflexivity].
      apply Ascii.eqb_eq in He. subst c. discriminate Hc. }
    rewrite Hm, Hp. now apply unsigned_all.
  - rewrite (strip_no_space ("-"%char :: ds)) by (constructor; [reflexivity|assumption]).
    rewrite too_long_few_digits by (cbn [filter]; change (HighScore.is_digit "-"%char) with false; lia).
    change (Ascii.eqb "-"%char "-"%char) with true. cbn match.
    now rewrite (unsigned_all ds Hne Hall).
Qed.

(** Blank characters around the number do not matter to [int]. *)
Lemma lstrip_spaces_app (ws l : list ascii) :
  Forall (fun c => HighScore.is_space c = true) ws ->
  HighScore.lstrip (ws ++ l) = HighScore.lstrip l.
Proof.
  induction 1 as [|c ws Hc _ IH]; [reflexivity|].
  cbn [app HighScore.lstrip]. now rewrite Hc.
Qed.

Lemma lstrip_app (a b : list ascii) :
  HighScore.lstrip (a ++ b)
  = match HighScore.lstrip a with
    | [] => HighScore.lstrip b
    | x => x ++ b
    end.
Proof.
  induction a as [|c a IH]; cbn [app HighScore.lstrip].
  - now destruct (HighScore.lstrip b).
  - destruct (HighScore.is_space c); [exact IH|reflexivity].
Qed.

Lemma lstrip_all_spaces (ws : list ascii) :
  Forall (fun c => HighScore.is_space c = true) ws ->
  HighScore.lstrip ws = [].
Proof.
  intro H. rewrite <- (app_nil_r ws). now rewrite lstrip_spaces_app.
Qed.

Lemma strip_surrounded (ws1 l ws2 : list ascii) :
  Forall (fun c => HighScore.is_space c = true) ws1 ->
  Forall (fun c => HighScore.is_space c = true) ws2 ->
  HighScore.strip (ws1 ++ l ++ ws2) = HighScore.strip l.
Proof.
  intros H1 H2. unfold HighScore.strip.
  rewrite (lstrip_spaces_app ws1 _ H1), lstrip_app.
  destruct (HighScore.lstrip l) as [|c r] eqn:Hl.
  - now rewrite (lstrip_all_spaces ws2 H2).
  - rewrite rev_app_distr.
    rewrite lstrip_spaces_app by (now apply Forall_rev). reflexivity.
Qed.

Lemma blank_is_space (c : ascii) : blank c <-> HighScore.is_space c = true.
Proof.
  unfold blank, HighScore.is_space. cbv zeta.
  rewrite !orb_true_iff, !andb_true_iff, !Nat.leb_le, !Nat.eqb_eq. lia.
Qed.

Lemma blanks_are_spaces (ws : list ascii) :
  Forall blank ws -> Forall (fun c => HighScore.is_space c = true) ws.
Proof. apply Forall_impl. intro c. apply blank_is_space. Qed.

(** C2, as the specification states it, fails: the text [-5] is not a
    non-negative integer, and [load_highscore] returns -5 for it, not 0. *)
Lemma load_negative_content :
  is_nonneg_int 4300 "-5" = false
  /\ HighScore.load_highscore 4300 (HighScore.Content "-5") = -5
  /\ HighScore.load_highscore 4300 (HighScore.Content "-5") <> 0.
Proof. repeat split. vm_compute. discriminate. Qed.

(** C2 (amended). For every text of characters below U+0100,
    [load_highscore] returns: 0 when the file is absent or unreadable, 0 when
    [int] refuses its text (which includes the empty and the blank text), and
    otherwise the integer [int] reads, be it negative: a text of up to 640
    digits gives its value, and the same digits after a minus sign give minus
    that value. Blank characters around the text, U+0085 and U+00A0 among
    them, change nothing. *)
Theorem load_highscore_total :
  forall m : nat,
    HighScore.load_highscore m HighScore.Absent = 0
    /\ HighScore.load_highscore m HighScore.Unreadable = 0
    /\ (forall s : string,
           HighScore.int_of_str m (list_ascii_of_string s) = None ->
           HighScore.load_highscore m (HighScore.Content s) = 0)
    /\ (forall (s : string) (n : Z),
           HighScore.int_of_str m (list_ascii_of_string s) = Some n ->
           HighScore.load_highscore m (HighScore.Content s) = n)
    /\ (forall s : string,
           HighScore.strip (list_ascii_of_string s) = [] ->
           HighScore.load_highscore m (HighScore.Content s) = 0)
    /\ (forall ds : list ascii,
           ds <> [] -> forallb HighScore.is_digit ds = true ->
           (List.length ds <= 640)%nat ->
           HighScore.load_highscore
             m (HighScore.Content (string_of_list_ascii ds))
           = dec_value ds
           /\ 0 <= dec_value ds
           /\ HighScore.load_highscore
                m (HighScore.Content (string_of_list_ascii ("-"%char :: ds)))
              = - dec_value ds)
    /\ (forall (ws1 ws2 : list ascii) (s : string),
           Forall blank ws1 -> Forall blank ws2 ->
           HighScore.load_highscore
             m (HighScore.Content
                  (string_of_list_ascii
                     (ws1 ++ list_ascii_of_string s ++ ws2)))
           = HighScore.load_highscore m (HighScore.Content s)).
Proof.
  intro m. split; [reflexivity|]. split; [reflexivity|].
  split; [|split; [|split; [|split]]].
  - intros s H. now rewrite load_content, H.
  - intros s n H. now rewrite load_content, H.
  - intros s H. cbn [HighScore.load_highscore]. now rewrite H.
  - intros ds Hne Hall Hlen.
    destruct (int_of_str_digits m ds Hne Hall Hlen) as [Hpos Hneg].
    rewrite !load_content, !list_ascii_of_string_of_list_ascii.
    rewrite Hpos, Hneg. repeat split. apply dec_value_nonneg.
  - intros ws1 ws2 s H1 H2.
    rewrite !load_content, !list_ascii_of_string_of_list_ascii.
    unfold HighScore.int_of_str.
    now rewrite (strip_surrounded ws1 _ ws2 (blanks_are_spaces _ H1)
                   (blanks_are_spaces _ H2)).
Qed.

Lemma load_highscore_total_witness :
  HighScore.load_highscore 4300 (HighScore.Content "12x") = 0
  /\ HighScore.load_highscore 4300 (HighScore.Content " 15 ") = 15
  /\ HighScore.load_highscore 4300 (HighScore.Content "074") = 74
  /\ HighScore.load_highscore 4300 (HighScore.Content "-074") = -74
  /\ HighScore.load_highscore
       4300 (HighScore.Content
               (string_of_list_ascii
                  ([ascii_of_nat 160] ++ list_ascii_of_string "12"
                   ++ [ascii_of_nat 133; "010"%char])))
     = 12.
Proof.
  destruct (load_highscore_total 4300)
    as (_ & _ & Hbad & Hgood & _ & Hdig & Hblank).
  split; [apply Hbad; reflexivity|].
  split; [apply Hgood; reflexivity|].
  destruct (Hdig (list_ascii_of_string "074")) as (Hp & _ & Hn).
  - discriminate.
  - reflexivity.
  - cbn. lia.
  - split; [exact Hp|]. split; [exact Hn|].
    rewrite Hblank.
    + apply Hgood. reflexivity.
    + apply Forall_cons; [now apply blank_is_space|apply Forall_nil].
    + apply Forall_cons; [now apply blank_is_space|].
      apply Forall_cons; [now apply blank_is_space|apply Forall_nil].
Defined.

(** A record kept behind no-break spaces is read, as [int] reads it. *)
Example load_no_break_space :
  HighScore.load_highscore
    4300 (HighScore.Content
            (String (ascii_of_nat 160) (String "1" (String "2"
               (String (ascii_of_nat 160) EmptyString)))))
  = 12.
Proof. vm_compute. reflexivity. Qed.

(* ================================================================== *)
(** * Further properties *)

(* ------------------------------------------------------------------ *)
(** ** The high-score file: writing and reading back *)

Lemma uint_chars_digits (d : Decimal.uint) :
  forallb HighScore.is_digit
          (list_ascii_of_string (NilEmpty.string_of_uint d)) = true.
Proof.
  induction d;
    cbn [NilEmpty.string_of_uint list_ascii_of_string forallb]; auto.
Qed.

Lemma uint_chars_length (d : Decimal.uint) :
  List.length (list_ascii_of_string (NilEmpty.string_of_uint d))
  = Decimal.nb_digits d.
Proof.
  induction d;
    cbn [NilEmpty.string_of_uint list_ascii_of_string List.length
         Decimal.nb_digits]; auto.
Qed.

Lemma uint_chars_acc (d : Decimal.uint) :
  forall acc : positive,
    fold_left dec_step (list_ascii_of_string (NilEmpty.string_of_uint d))
              (Z.pos acc)
    = Z.pos (Pos.of_uint_acc d acc).
Proof.
  induction d; intro acc;
    cbn [NilEmpty.string_of_uint list_ascii_of_string fold_left
         Pos.of_uint_acc];
    try reflexivity;
    rewrite <- IHd; f_equal; unfold dec_step;
    match goal with
    | |- context [Z.of_nat (nat_of_ascii ?c - 48)] =>
        let v := eval vm_compute in (Z.of_nat (nat_of_ascii c - 48)) in
        change (Z.of_nat (nat_of_ascii c - 48)) with v
    end; lia.
Qed.

Lemma uint_chars_value (d : Decimal.uint) :
  dec_value (list_ascii_of_string (NilEmpty.string_of_uint d)) = Z.of_uint d.
Proof.
  unfold dec_value. fold dec_step. unfold Z.of_uint.
  induction d;
    cbn [NilEmpty.string_of_uint list_ascii_of_string fold_left Pos.of_uint];
    try reflexivity;
    try (change (dec_step 0 _) with 0; exact IHd);
    match goal with
    | |- fold_left dec_step _ (dec_step 0 ?c) = _ =>
        let v := eval vm_compute in (dec_step 0 c) in
        change (dec_step 0 c) with v
    end; rewrite uint_chars_acc; reflexivity.
Qed.

Lemma fold_dec_step_lower (ds : list ascii) :
  forall acc : Z,
    0 <= acc ->
    acc * 10 ^ Z.of_nat (List.length ds) <= fold_left dec_step ds acc.
Proof.
  induction ds as [|c r IH]; intros acc Hacc.
  - cbn [fold_left List.length]. change (10 ^ Z.of_nat 0) with 1. lia.
  - cbn [fold_left List.length]. rewrite Nat2Z.inj_succ, Z.pow_succ_r by lia.
    assert (Hs : 10 * acc <= dec_step acc c) by (unfold dec_step; lia).
    specialize (IH (dec_step acc c) ltac:(lia)).
    pose proof (Z.pow_nonneg 10 (Z.of_nat (List.length r)) ltac:(lia)) as Hp.
    nia.
Qed.

(** A positive number below [10 ^ k] prints with at most [k] digits. *)
Lemma to_uint_digits_bound (p : positive) (k : nat) :
  Z.pos p < 10 ^ Z.of_nat k -> (Decimal.nb_digits (Pos.to_uint p) <= k)%nat.
Proof.
  intro Hlt.
  pose proof (DecimalPos.Unsigned.of_to p) as Hof.
  pose proof (DecimalPos.Unsigned.to_of (Pos.to_uint p)) as Hto.
  rewrite Hof in Hto. cbn [N.to_uint] in Hto.
  pose proof (DecimalPos.Unsigned.to_uint_nonzero p) as Hnz.
  assert (Hval : Z.pos p = Z.of_N (Pos.of_uint (Pos.to_uint p)))
    by (rewrite Hof; reflexivity).
  destruct (Pos.to_uint p) as [|l|l|l|l|l|l|l|l|l|l] eqn:Hd;
    [cbn; lia| |..].
  { (* a leading zero is impossible *)
    exfalso. unfold Decimal.unorm in Hto. cbn [Decimal.nzhead] in Hto.
    pose proof (DecimalFacts.nb_digits_nzhead l) as Hle.
    destruct (Decimal.nzhead l) eqn:Hn;
      try (rewrite <- Hto in Hle; cbn [Decimal.nb_digits] in Hle; lia).
    apply Hnz. exact Hto. }
  all: cbn [Pos.of_uint Z.of_N] in Hval;
    rewrite <- uint_chars_acc in Hval;
    match type of Hval with
    | _ = fold_left dec_step ?ds (Z.pos ?a) =>
        pose proof (fold_dec_step_lower ds (Z.pos a) ltac:(lia)) as Hlow
    end;
    rewrite uint_chars_length in Hlow;
    cbn [Decimal.nb_digits];
    destruct (Nat.le_gt_cases (S (Decimal.nb_digits l)) k) as [Hk|Hk];
    [exact Hk|exfalso];
    assert (Hpow : 10 ^ Z.of_nat k <= 10 ^ Z.of_nat (Decimal.nb_digits l))
      by (apply Z.pow_le_mono_r; lia);
    nia.
Qed.

Lemma str_digits (m : nat) (p : positive) (k : nat) :
  (k <= 640)%nat -> Z.pos p < 10 ^ Z.of_nat k ->
  HighScore.int_of_str
    m (list_ascii_of_string (NilEmpty.string_of_uint (Pos.to_uint p)))
  = Some (Z.pos p)
  /\ HighScore.int_of_str
       m ("-"%char
          :: list_ascii_of_string (NilEmpty.string_of_uint (Pos.to_uint p)))
     = Some (Z.neg p).
Proof.
  intros Hk Hb.
  pose proof (DecimalPos.Unsigned.to_uint_nonnil p) as Hnn.
  pose proof (to_uint_digits_bound p k Hb) as Hlen.
  destruct (int_of_str_digits m
              (list_ascii_of_string (NilEmpty.string_of_uint (Pos.to_uint p))))
    as [Hpos Hneg].
  - intro H. apply (f_equal (@List.length ascii)) in H.
    rewrite uint_chars_length in H.
    destruct (Pos.to_uint p); try discriminate H. now apply Hnn.
  - apply uint_chars_digits.
  - rewrite uint_chars_length. lia.
  - rewrite Hpos, Hneg, uint_chars_value.
    change (Z.of_uint (Pos.to_uint p)) with (Z.of_int (Z.to_int (Z.pos p))).
    rewrite DecimalZ.of_to. split; reflexivity.
Qed.

Lemma str_roundtrip (m : nat) (n : Z) (k : nat) :
  (k <= 640)%nat -> Z.abs n < 10 ^ Z.of_nat k ->
  HighScore.int_of_str m (list_ascii_of_string (HighScore.str n)) = Some n.
Proof.
  intros Hk Hb. unfold HighScore.str.
  destruct n as [|p|p]; [reflexivity| |].
  - destruct (str_digits m p k Hk Hb) as [Hpos _].
    cbn [Z.to_int NilZero.string_of_int]. unfold NilZero.string_of_uint.
    pose proof (DecimalPos.Unsigned.to_uint_nonnil p) as Hnn.
    destruct (Pos.to_uint p); try (now contradiction Hnn); exact Hpos.
  - destruct (str_digits m p k Hk Hb) as [_ Hneg].
    cbn [Z.to_int NilZero.string_of_int list_ascii_of_string].
    unfold NilZero.string_of_uint.
    pose proof (DecimalPos.Unsigned.to_uint_nonnil p) as Hnn.
    destruct (Pos.to_uint p); try (now contradiction Hnn); exact Hneg.
Qed.

(** X1. What [save_highscore] writes, [load_highscore] reads back: for every
    integer of at most 640 digits, negative ones included, and whatever the
    file held before. *)
Theorem save_load_roundtrip :
  forall (m : nat) (n : Z) (f : HighScore.file) (k : nat),
    (k <= 640)%nat -> Z.abs n < 10 ^ Z.of_nat k ->
    HighScore.load_highscore
      m (HighScore.save_highscore HighScore.Written n f)
    = n.
Proof.
  intros m n f k Hk Hb. cbn [HighScore.save_highscore].
  now rewrite load_content, (str_roundtrip m n k Hk Hb).
Qed.

Lemma save_load_roundtrip_witness :
  HighScore.load_highscore
    4300 (HighScore.save_highscore HighScore.Written 15
                                   (HighScore.Content "garbage"))
  = 15
  /\ HighScore.load_highscore
       4300 (HighScore.save_highscore HighScore.Written (-7) HighScore.Absent)
     = -7.
Proof.
  split.
  - apply (save_load_roundtrip 4300 15 _ 2); [lia|reflexivity].
  - apply (save_load_roundtrip 4300 (-7) _ 1); [lia|reflexivity].
Defined.

(** A frame's update read backwards: either the session was not in play (or
    was paused) and nothing changed, or the frame was played out. *)
Lemma update_cases (d : Draws) (g g' : Game) :
  update d g = Some g' ->
  (g' = g /\ (state g <> playing \/ paused g = true))
  \/ (state g = playing /\ paused g = false
      /\ exists br : Rect.t,
          bird_rect (bird (advance d g)) = Some br
          /\ bird g' = Bird.update (bird g)
          /\ pipes g' = map (mark (Bird.x (bird g))) (pipes (advance d g))
          /\ coins g'
             = filter (fun c => negb (touches br c)) (coins (advance d g))
          /\ particles g'
             = particles_step (particles g)
               ++ flat_map burst (filter (touches br) (coins (advance d g)))
          /\ score g'
             = score g + earned br (Bird.x (bird g)) (pipes (advance d g))
                                (coins (advance d g))
          /\ state g' = (if hit_at br (advance d g) then gameover else playing)
          /\ highscore g'
             = (if hit_at br (advance d g) && (highscore g <? score g')
                then score g' else highscore g)
          /\ hs_file g'
             = (if hit_at br (advance d g) && (highscore g <? score g')
                then HighScore.save_highscore (disk d) (score g') (hs_file g)
                else hs_file g)
          /\ paused g' = false
          /\ just_started_cooldown g'
             = (if 0 <? just_started_cooldown g
                then just_started_cooldown g - 1
                else just_started_cooldown g)
          /\ running g' = running g).
Proof.
  intro Hu. unfold update in Hu.
  destruct (state g) eqn:Hst; cbn [state_eqb andb] in Hu;
    try (injection Hu as <-; left; split; [reflexivity|left; discriminate]).
  destruct (paused g) eqn:Hp; cbn [negb] in Hu;
    [injection Hu as <-; left; split; [reflexivity|now right]|].
  right. split; [reflexivity|]. split; [reflexivity|].
  destruct (bird_rect (bird (advance d g))) as [br|] eqn:Hbr;
    [|unfold collisions in Hu; rewrite Hbr in Hu; discriminate].
  exists br. split; [reflexivity|].
  destruct (update_spec d g br Hst Hp Hbr)
    as (g2 & Hu2 & Hpi & Hco & Hpa & Hsc & Hgs & Hhs & Hfile).
  assert (Hg2 : update d g = Some g').
  { unfold update. rewrite Hst, Hp. exact Hu. }
  rewrite Hg2 in Hu2. injection Hu2 as <-.
  destruct (collisions_spec d (advance d g) br Hbr)
    as (g3 & Hc & Hb & _ & _ & _ & _ & _ & _ & _ & Hpau & Hcd).
  rewrite Hu in Hc. injection Hc as <-.
  assert (Hadv : bird (advance d g) = Bird.update (bird g)
                 /\ particles (advance d g) = particles_step (particles g)
                 /\ paused (advance d g) = paused g
                 /\ just_started_cooldown (advance d g)
                    = (if 0 <? just_started_cooldown g
                       then just_started_cooldown g - 1
                       else just_started_cooldown g)
                 /\ running (advance d g) = running g).
  { unfold advance. destruct (spawn d (pipes g) (coins g)).
    repeat split. }
  destruct Hadv as (Hab & Hap & Hapa & Hacd & Har).
  rewrite Hab in Hb. rewrite Hap in Hpa. rewrite Hapa, Hp in Hpau.
  rewrite Hacd in Hcd.
  repeat split; try assumption.
  unfold collisions in Hu. rewrite Hbr in Hu.
  destruct (pipe_pass _ _ _ _) as [[? ?] ?].
  destruct (coin_pass _ _ _ _) as [[? ?] ?].
  injection Hu as <-. cbn [running]. exact Har.
Qed.

(** X2. A record survives the program: when a fatal frame raises the high
    score and the write succeeds, a later run of [main] on the file starts
    with exactly that high score. *)
Theorem record_survives_restart :
  forall (d : Draws) (g g' : Game) (m : nat) (draw : Z -> Z) (k : nat),
    update d g = Some g' ->
    state g = playing -> state g' = gameover ->
    highscore g < score g' ->
    disk d = HighScore.Written ->
    (k <= 640)%nat -> Z.abs (score g') < 10 ^ Z.of_nat k ->
    highscore g' = score g'
    /\ highscore (main_init m (hs_file g') draw) = highscore g'.
Proof.
  intros d g g' m draw k Hu Hst Hst' Hlt Hdisk Hk Hb.
  destruct (update_cases d g g' Hu) as [[-> _]|(_ & _ & br & _ & _ & _ & _ & _
      & _ & Hgs & Hhs & Hfile & _)]; [congruence|].
  destruct (hit_at br (advance d g)); [|rewrite Hst' in Hgs; discriminate].
  apply Z.ltb_lt in Hlt. rewrite Hlt in Hhs, Hfile. cbn [andb] in Hhs, Hfile.
  split; [assumption|].
  cbn [main_init highscore]. rewrite Hfile, Hdisk, Hhs.
  cbn [HighScore.save_highscore].
  now rewrite load_content, (str_roundtrip m (score g') k Hk Hb).
Qed.

Lemma record_survives_restart_witness :
  exists g' : Game,
    update fixture_draws
           (fixture 520 [passing_pipe; near_pipe] [coin_ahead 530] 2)
    = Some g'
    /\ highscore g' = 6
    /\ highscore (main_init 4300 (hs_file g') (fun i => i)) = 6.
Proof.
  eexists. split; [vm_compute; reflexivity|].
  match goal with
  | |- highscore ?g' = _ /\ _ =>
      destruct (record_survives_restart
                  fixture_draws
                  (fixture 520 [passing_pipe; near_pipe] [coin_ahead 530] 2)
                  g' 4300 (fun i => i) 1%nat)
        as [H1 H2]
  end; try reflexivity; try lia.
  split; [reflexivity|]. rewrite H2. reflexivity.
Defined.

(** X3. Blank characters before and after the number are ignored, the
    no-break space and the next-line character as the ASCII ones: a file that
    holds the number followed by a newline, or indented, loads as the number
    alone does. *)
Theorem load_ignores_surrounding_blanks :
  forall (m : nat) (ws1 l ws2 : list ascii),
    Forall (fun c => HighScore.is_space c = true) ws1 ->
    Forall (fun c => HighScore.is_space c = true) ws2 ->
    HighScore.load_highscore
      m (HighScore.Content (string_of_list_ascii (ws1 ++ l ++ ws2)))
    = HighScore.load_highscore
        m (HighScore.Content (string_of_list_ascii l)).
Proof.
  intros m ws1 l ws2 H1 H2.
  rewrite !load_content, !list_ascii_of_string_of_list_ascii.
  unfold HighScore.int_of_str. now rewrite (strip_surrounded ws1 l ws2 H1 H2).
Qed.

Lemma load_ignores_surrounding_blanks_witness :
  HighScore.load_highscore
    4300 (HighScore.Content
            (string_of_list_ascii
               ([" "; " "]%char ++ ["4"; "2"]%char ++ ["010"]%char)))
  = HighScore.load_highscore 4300 (HighScore.Content "42").
Proof.
  apply (load_ignores_surrounding_blanks 4300 [" "; " "]%char
                                         ["4"; "2"]%char ["010"]%char);
    repeat constructor.
Defined.

(* ------------------------------------------------------------------ *)
(** ** The bird's tilt *)

Lemma ltb_leb (x y : float) :
  PrimFloat.ltb x y = true -> PrimFloat.leb x y = true.
Proof.
  rewrite ltb_spec, leb_spec. unfold SFltb, SFleb.
  destruct (SFcompare (Prim2SF x) (Prim2SF y)) as [[| |]|];
    intro H; try reflexivity; discriminate H.
Qed.

(** X4. Whatever the velocity, a NaN included, the rotation [update] leaves
    is between -25 and 90: the image is never turned further. *)
Theorem rotation_bounded :
  forall b : Bird.t,
    PrimFloat.leb (-25)%float (Bird.rotation (Bird.update b)) = true
    /\ PrimFloat.leb (Bird.rotation (Bird.update b)) 90%float = true.
Proof.
  intro b. cbn [Bird.update Bird.rotation]. unfold Py.max, Py.min.
  set (v := (- (Bird.vel b + GRAVITY) * 3)%float).
  destruct (PrimFloat.ltb v 90%float) eqn:Hv.
  - destruct (PrimFloat.ltb (-25)%float v) eqn:Hm.
    + split; now apply ltb_leb.
    + split; reflexivity.
  - change (PrimFloat.ltb (-25)%float 90%float) with true. cbv iota.
    split; reflexivity.
Qed.

(* ------------------------------------------------------------------ *)
(** ** Pause and lockout *)

Lemma handle_event_ignored (draw : Z -> Z) (e : event) (g : Game) :
  state g = playing ->
  paused g = true \/ just_started_cooldown g <> 0 ->
  not_control e = true ->
  handle_event draw e g = g.
Proof.
  intros Hst Hblock He.
  assert (Hprim : primary_action draw g = g).
  { unfold primary_action. rewrite Hst.
    destruct Hblock as [Hp|Hc].
    - rewrite Hp. now rewrite andb_false_r.
    - apply Z.eqb_neq in Hc. now rewrite Hc. }
  destruct e as [|k|b|]; try discriminate He; cbn [handle_event].
  - destruct k; try discriminate He; rewrite ?Hprim, ?Hst; reflexivity.
  - destruct (b =? 1); [exact Hprim|reflexivity].
  - reflexivity.
Qed.

Lemma events_ignored (draw : Z -> Z) (events : list event) (g : Game) :
  state g = playing ->
  paused g = true \/ just_started_cooldown g <> 0 ->
  forallb not_control events = true ->
  fold_left (fun g e => handle_event draw e g) events g = g.
Proof.
  intros Hst Hblock. induction events as [|e r IH]; intro Hall;
    [reflexivity|].
  cbn [forallb] in Hall. apply andb_true_iff in Hall. destruct Hall as [He Hr].
  cbn [fold_left]. rewrite (handle_event_ignored draw e g Hst Hblock He).
  now apply IH.
Qed.

(** X5. A paused session is frozen: over any number of frames in which the
    player neither presses P nor quits, whatever else is pressed or clicked,
    nothing of the session changes. *)
Theorem paused_session_frozen :
  forall (inputs : list ((Z -> Z) * list event * Draws)) (g : Game),
    state g = playing -> paused g = true ->
    Forall (fun i => forallb not_control (snd (fst i)) = true) inputs ->
    main_loop inputs g = Some g.
Proof.
  intros inputs g Hst Hp Hall.
  induction Hall as [|[[draw events] d] rest He _ IH]; [reflexivity|].
  cbn [main_loop]. destruct (running g); [|reflexivity].
  unfold frame. cbn [fst snd] in He.
  rewrite (events_ignored draw events g Hst (or_introl Hp) He).
  unfold update. rewrite Hst, Hp. cbn [state_eqb negb andb]. exact IH.
Qed.

Lemma paused_session_frozen_witness :
  main_loop
    [(fun i => i, [KEYDOWN K_SPACE; MOUSEBUTTONDOWN 1], fixture_draws);
     (fun i => i, [], fixture_draws);
     (fun i => i, [KEYDOWN K_UP], fixture_draws)]
    (set_paused true (fixture 300 [near_pipe] [coin_ahead 310] 0))
  = Some (set_paused true (fixture 300 [near_pipe] [coin_ahead 310] 0)).
Proof.
  apply paused_session_frozen; [reflexivity|reflexivity|].
  repeat constructor.
Defined.

(** X6. In play, P toggles the pause and nothing else, so pressing it twice
    gives back the session as it was; outside play it does nothing. *)
Theorem pause_key_toggles :
  forall (draw : Z -> Z) (g : Game),
    (state g = playing ->
     handle_event draw (KEYDOWN K_p) g = set_paused (negb (paused g)) g
     /\ handle_event draw (KEYDOWN K_p) (handle_event draw (KEYDOWN K_p) g)
        = g)
    /\ (state g <> playing -> handle_event draw (KEYDOWN K_p) g = g).
Proof.
  intros draw g. split.
  - intro Hst. cbn [handle_event]. rewrite Hst.
    split; [reflexivity|]. cbn [set_paused state]. rewrite Hst.
    destruct g as [b ps cs pa sc st p hs cd r f]. cbn.
    now rewrite negb_involutive.
  - intro Hst. cbn [handle_event]. destruct (state g); congruence.
Qed.

Lemma pause_key_toggles_witness :
  handle_event (fun i => i) (KEYDOWN K_p)
    (handle_event (fun i => i) (KEYDOWN K_p) (fixture 300 [near_pipe] [] 0))
  = fixture 300 [near_pipe] [] 0
  /\ handle_event (fun i => i) (KEYDOWN K_p)
       (main_init 4300 HighScore.Absent (fun i => i))
     = main_init 4300 HighScore.Absent (fun i => i).
Proof.
  destruct (pause_key_toggles (fun i => i) (fixture 300 [near_pipe] [] 0))
    as [Hplay _].
  destruct (pause_key_toggles (fun i => i)
              (main_init 4300 HighScore.Absent (fun i => i)))
    as [_ Hmenu].
  split.
  - apply Hplay. reflexivity.
  - apply Hmenu. discriminate.
Defined.

(** X7. While the lockout counter is not 0, the primary action does nothing
    in play: a frame with any presses and clicks that neither pause nor quit
    is the frame without events; and a frame in play lowers a positive
    counter by one. *)
Theorem lockout_ignores_flaps :
  forall (draw : Z -> Z) (events : list event) (d : Draws) (g : Game),
    state g = playing -> just_started_cooldown g <> 0 ->
    forallb not_control events = true ->
    frame draw events d g = update d g
    /\ forall g' : Game,
        update d g = Some g' -> paused g = false ->
        0 < just_started_cooldown g ->
        just_started_cooldown g' = just_started_cooldown g - 1
        /\ Bird.vel (bird g') = (Bird.vel (bird g) + GRAVITY)%float.
Proof.
  intros draw events d g Hst Hcd Hall. split.
  - unfold frame.
    now rewrite (events_ignored draw events g Hst (or_intror Hcd) Hall).
  - intros g' Hu Hp Hpos.
    destruct (update_cases d g g' Hu) as [[_ [Hn|Hn]]|(_ & _ & br & _ & Hb & _
        & _ & _ & _ & _ & _ & _ & _ & Hc & _)]; try congruence.
    apply Z.ltb_lt in Hpos. rewrite Hpos in Hc. split; [assumption|].
    now rewrite Hb.
Qed.

Lemma lockout_ignores_flaps_witness :
  frame (fun i => i) [KEYDOWN K_SPACE; MOUSEBUTTONDOWN 1] fixture_draws
        (set_cooldown 10 (fixture 300 [near_pipe] [] 0))
  = update fixture_draws (set_cooldown 10 (fixture 300 [near_pipe] [] 0))
  /\ option_map just_started_cooldown
       (update fixture_draws (set_cooldown 10 (fixture 300 [near_pipe] [] 0)))
     = Some 9.
Proof.
  destruct (lockout_ignores_flaps
              (fun i => i) [KEYDOWN K_SPACE; MOUSEBUTTONDOWN 1] fixture_draws
              (set_cooldown 10 (fixture 300 [near_pipe] [] 0)))
    as [Hframe Hstep]; try reflexivity; try discriminate.
  split; [exact Hframe|].
  destruct (update fixture_draws
              (set_cooldown 10 (fixture 300 [near_pipe] [] 0)))
    as [g'|] eqn:Hu; [|vm_compute in Hu; discriminate Hu].
  destruct (Hstep g' eq_refl eq_refl) as [Hc _]; [reflexivity|].
  cbn [option_map]. rewrite Hc. reflexivity.
Defined.

(* ------------------------------------------------------------------ *)
(** ** Hitting a pipe *)

(** X8. For a pipe with its gap in range and a box of positive size, the
    box hits the pipe exactly when the two overlap sideways and either the
    box's top is above the gap's top while its bottom is below the top of the
    screen ([y < gap_y] and [0 < y + h]), or the box's bottom is below the
    gap's bottom while its top is above the floor line
    ([gap_y + PIPE_GAP < y + h] and [y < HEIGHT - FLOOR_HEIGHT]): the pipe
    ends at the top of the screen and at the floor line. A box that lies
    within the gap, its edges on the gap's edges at most, passes. *)
Theorem hits_pipe_iff :
  forall (br : Rect.t) (p : Pipe.t),
    gap_ok p -> 0 < Pipe.w p -> 0 < Rect.w br -> 0 < Rect.h br ->
    (hits_pipe br p = true
     <-> (Rect.x br < Pipe.x p + Pipe.w p
          /\ Pipe.x p < Rect.x br + Rect.w br)
         /\ ((Rect.y br < Pipe.gap_y p /\ 0 < Rect.y br + Rect.h br)
             \/ (Pipe.gap_y p + PIPE_GAP < Rect.y br + Rect.h br
                 /\ Rect.y br < HEIGHT - FLOOR_HEIGHT)))
    /\ (Pipe.gap_y p <= Rect.y br ->
        Rect.y br + Rect.h br <= Pipe.gap_y p + PIPE_GAP ->
        hits_pipe br p = false).
Proof.
  intros br p Hgap Hw Hbw Hbh.
  pose proof (hits_pipe_spec br p Hgap Hw Hbw Hbh) as Hiff.
  split; [exact Hiff|].
  intros Hlo Hhi. apply not_true_is_false. intro Hh.
  apply Hiff in Hh. unfold PIPE_GAP in *. lia.
Qed.

Lemma hits_pipe_iff_witness :
  hits_pipe (Rect.mk 80 200 34 24) (Pipe.update (-68) passing_pipe) = false
  /\ hits_pipe (Rect.mk 80 199 34 24) (Pipe.update (-68) passing_pipe) = true.
Proof.
  assert (Hgap : gap_ok (Pipe.update (-68) passing_pipe))
    by (unfold gap_ok; vm_compute; split; discriminate).
  pose proof (hits_pipe_iff (Rect.mk 80 200 34 24)
                (Pipe.update (-68) passing_pipe) Hgap eq_refl eq_refl eq_refl)
    as [_ Hsafe].
  pose proof (hits_pipe_iff (Rect.mk 80 199 34 24)
                (Pipe.update (-68) passing_pipe) Hgap eq_refl eq_refl eq_refl)
    as [Hiff _].
  split.
  - apply Hsafe; vm_compute; discriminate.
  - apply Hiff. vm_compute. intuition congruence.
Defined.

(* ------------------------------------------------------------------ *)
(** ** Particles *)

Lemma advance_particles (d : Draws) (g : Game) :
  particles (advance d g) = particles_step (particles g).
Proof.
  unfold advance. destruct (spawn d (pipes g) (coins g)). reflexivity.
Qed.

Lemma particles_step_one (k : Z) (ps : list Particle.t) :
  0 <= k ->
  particles_step (map (rise k) (filter (fun q => k <? Particle.lifetime q) ps))
  = map (rise (k + 1))
        (filter (fun q => k + 1 <? Particle.lifetime q) ps).
Proof.
  intro Hk. unfold particles_step.
  induction ps as [|q ps IH]; [reflexivity|].
  cbn [filter].
  destruct (k + 1 <? Particle.lifetime q) eqn:H1.
  - apply Z.ltb_lt in H1.
    replace (k <? Particle.lifetime q) with true
      by (symmetry; apply Z.ltb_lt; lia).
    cbn [map filter Particle.update rise Particle.lifetime].
    replace (0 <? Particle.lifetime q - k - 1) with true
      by (symmetry; apply Z.ltb_lt; lia).
    rewrite IH. f_equal. unfold Particle.update, rise.
    cbn [Particle.x Particle.y Particle.lifetime]. f_equal; lia.
  - apply Z.ltb_ge in H1.
    destruct (k <? Particle.lifetime q) eqn:H0; [|exact IH].
    cbn [map filter Particle.update rise Particle.lifetime].
    replace (0 <? Particle.lifetime q - k - 1) with false
      by (symmetry; apply Z.ltb_ge; lia).
    exact IH.
Qed.

Lemma particles_step_first (ps : list Particle.t) :
  particles_step ps
  = map (rise 1) (filter (fun q => 1 <? Particle.lifetime q) ps).
Proof.
  unfold particles_step.
  induction ps as [|q ps IH]; [reflexivity|].
  cbn [map filter Particle.update Particle.lifetime].
  destruct (1 <? Particle.lifetime q) eqn:H1.
  - apply Z.ltb_lt in H1.
    replace (0 <? Particle.lifetime q - 1) with true
      by (symmetry; apply Z.ltb_lt; lia).
    cbn [map]. now rewrite IH.
  - apply Z.ltb_ge in H1.
    replace (0 <? Particle.lifetime q - 1) with false
      by (symmetry; apply Z.ltb_ge; lia).
    exact IH.
Qed.

(** X9. The particles of a session [n + 1] frames of play later, bursts
    of those frames apart, are the ones whose lifetime exceeds [n + 1], each
    [n + 1] pixels higher and as much older: a particle of lifetime [l] is
    seen for [l - 1] more frames and is gone on the [l]-th. *)
Theorem particles_after_frames :
  (forall (d : Draws) (g : Game),
      particles (advance d g) = particles_step (particles g))
  /\ forall (n : nat) (ps : list Particle.t),
      Nat.iter (S n) particles_step ps
      = map (rise (Z.of_nat (S n)))
            (filter (fun q => Z.of_nat (S n) <? Particle.lifetime q) ps).
Proof.
  split; [apply advance_particles|].
  induction n as [|n IH]; intro ps.
  - apply particles_step_first.
  - change (Nat.iter (S (S n)) particles_step ps)
      with (particles_step (Nat.iter (S n) particles_step ps)).
    replace (Z.of_nat (S (S n))) with (Z.of_nat (S n) + 1) by lia.
    rewrite IH. apply particles_step_one. lia.
Qed.

(* ------------------------------------------------------------------ *)
(** ** What every reachable session satisfies *)

Lemma ss_snoc {A : Type} (R : A -> A -> Prop) (l : list A) (a : A) :
  StronglySorted R l -> Forall (fun q => R q a) l ->
  StronglySorted R (l ++ [a]).
Proof.
  induction 1 as [|b l Hs IH Hb]; intro Hall; cbn [app].
  - constructor; constructor.
  - inversion Hall as [|? ? Hba Hrest]; subst.
    constructor; [now apply IH|].
    apply Forall_app. split; [assumption|]. now constructor.
Qed.

Lemma ss_snoc_inv {A : Type} (R : A -> A -> Prop) (l : list A) (a : A) :
  StronglySorted R (l ++ [a]) -> Forall (fun q => R q a) l.
Proof.
  induction l as [|b l IH]; intro Hs; [constructor|].
  cbn [app] in Hs. inversion Hs as [|? ? Hs' Hb]; subst.
  constructor; [|now apply IH].
  apply Forall_app in Hb. destruct Hb as [_ Hb].
  now inversion Hb.
Qed.

Lemma ss_map {A : Type} (R : A -> A -> Prop) (f : A -> A) (l : list A) :
  (forall p q, R p q -> R (f p) (f q)) ->
  StronglySorted R l -> StronglySorted R (map f l).
Proof.
  intros Hf. induction 1 as [|b l Hs IH Hb]; cbn [map]; constructor.
  - assumption.
  - apply Forall_map. eapply Forall_impl; [|exact Hb]. intros q. apply Hf.
Qed.

Lemma ss_filter {A : Type} (R : A -> A -> Prop) (f : A -> bool) (l : list A) :
  StronglySorted R l -> StronglySorted R (filter f l).
Proof.
  induction 1 as [|b l Hs IH Hb]; cbn [filter]; [constructor|].
  destruct (f b); [|assumption].
  constructor; [assumption|]. now apply Forall_filter_keep.
Qed.

Lemma ss_in {A : Type} (R : A -> A -> Prop) (l : list A) (p q : A) :
  StronglySorted R l -> In p l -> In q l -> p = q \/ R p q \/ R q p.
Proof.
  induction 1 as [|b l Hs IH Hb]; intros Hp Hq; [contradiction|].
  rewrite Forall_forall in Hb.
  destruct Hp as [->|Hp], Hq as [->|Hq].
  - now left.
  - right. left. now apply Hb.
  - right. right. now apply Hb.
  - now apply IH.
Qed.

(** When a pipe is due, every pipe of a spaced list is far enough left for
    the new one. *)
Lemma need_spawn_room (ps : list Pipe.t) :
  StronglySorted ahead ps -> need_spawn ps = true ->
  Forall (fun q => ahead q (Pipe.init (WIDTH + 20) 0)) ps.
Proof.
  intros Hs Hn. unfold need_spawn in Hn.
  destruct (rev ps) as [|l tl] eqn:Hrev.
  - apply (f_equal (@rev Pipe.t)) in Hrev. rewrite rev_involutive in Hrev.
    subst ps. constructor.
  - apply (f_equal (@rev Pipe.t)) in Hrev. rewrite rev_involutive in Hrev.
    cbn [rev] in Hrev. subst ps. apply Z.ltb_lt in Hn.
    pose proof (ss_snoc_inv _ _ _ Hs) as Hall.
    apply Forall_app. split.
    + eapply Forall_impl; [|exact Hall]. intros q Hq.
      unfold ahead in *. cbn [Pipe.init Pipe.x].
      unfold WIDTH, PIPE_SPACING in *. lia.
    + constructor; [|constructor]. unfold ahead. cbn [Pipe.init Pipe.x].
      unfold WIDTH, PIPE_SPACING in *. lia.
Qed.

Lemma spawned_sorted (d : Draws) (g : Game) :
  StronglySorted ahead (pipes g) -> StronglySorted ahead (spawned_pipes d g).
Proof.
  intro Hs. unfold spawned_pipes, spawn.
  destruct (need_spawn (pipes g)) eqn:Hn; [|assumption].
  pose proof (need_spawn_room (pipes g) Hs Hn) as Hroom.
  destruct (PrimFloat.ltb (coin_u d) 0.5); cbn [fst];
    apply ss_snoc; assumption.
Qed.

Lemma spawned_pipe_ok (d : Draws) (g : Game) :
  Forall pipe_ok (pipes g) -> Forall pipe_ok (spawned_pipes d g).
Proof.
  intro H. unfold spawned_pipes, spawn.
  destruct (need_spawn (pipes g)); [|assumption].
  assert (Hnew : pipe_ok (Pipe.init (WIDTH + 20) (gap_r d))).
  { unfold pipe_ok. cbn [Pipe.init Pipe.w Pipe.x].
    unfold WIDTH, PIPE_WIDTH, PIPE_SPACING. lia. }
  destruct (PrimFloat.ltb (coin_u d) 0.5); cbn [fst];
    (apply Forall_app; split; [assumption|]); now constructor.
Qed.

Lemma pipe_speed_pos (s : Z) : 0 <= s -> PIPE_SPEED_BASE <= pipe_speed s.
Proof.
  intro H. unfold pipe_speed, Py.floordiv.
  pose proof (Z.div_pos s 10 H ltac:(lia)). lia.
Qed.

Lemma mark_fields (bx : Z) (p : Pipe.t) :
  Pipe.x (mark bx p) = Pipe.x p /\ Pipe.w (mark bx p) = Pipe.w p
  /\ Pipe.gap_y (mark bx p) = Pipe.gap_y p.
Proof. unfold mark. destruct (flips bx p); repeat split. Qed.

(** The pipes a frame in play leaves. *)
Lemma played_pipes (d : Draws) (g : Game) (bx : Z) :
  0 <= score g ->
  Forall pipe_ok (pipes g) -> StronglySorted ahead (pipes g) ->
  Forall pipe_ok (map (mark bx) (pipes (advance d g)))
  /\ StronglySorted ahead (map (mark bx) (pipes (advance d g))).
Proof.
  intros Hsc Hok Hs. rewrite advance_pipes.
  pose proof (pipe_speed_pos (score g) Hsc) as Hsp.
  split.
  - apply Forall_map. apply Forall_forall. intros p Hp.
    apply filter_In in Hp. destruct Hp as [Hin Hoff].
    apply in_map_iff in Hin. destruct Hin as (q & <- & Hq).
    pose proof (spawned_pipe_ok d g Hok) as Hsok.
    rewrite Forall_forall in Hsok. destruct (Hsok q Hq) as [Hw [Hlo Hhi]].
    destruct (mark_fields bx (Pipe.update (pipe_speed (score g)) q))
      as (Hx & Hw' & _).
    unfold pipe_ok. rewrite Hx, Hw'.
    apply negb_true_iff in Hoff. unfold Pipe.offscreen in Hoff.
    apply Z.ltb_ge in Hoff. cbn [Pipe.update Pipe.x Pipe.w] in *.
    unfold PIPE_SPEED_BASE, WIDTH, PIPE_SPACING in *. lia.
  - apply ss_map.
    + intros p q. unfold ahead.
      destruct (mark_fields bx p) as (-> & _).
      destruct (mark_fields bx q) as (-> & _). trivial.
    + apply ss_filter. apply ss_map; [|now apply spawned_sorted].
      intros p q. unfold ahead. cbn [Pipe.update Pipe.x]. lia.
Qed.

Lemma coin_update_ok (s : Z) (c : Coin.t) : coin_ok c -> coin_ok (Coin.update s c).
Proof.
  intros [Hr Hrect]. unfold coin_ok.
  cbn [Coin.update Coin.radius Coin.rect Coin.x Coin.y].
  split; [assumption|]. rewrite Hrect. reflexivity.
Qed.

Lemma coin_init_ok (x0 y0 : Z) : coin_ok (Coin.init x0 y0).
Proof. split; reflexivity. Qed.

(** The coins a frame moves, each with its pipe among the moved pipes. *)
Lemma spawned_coins (d : Draws) (g : Game) :
  Forall coin_ok (coins g) ->
  Forall (fun c => exists p, In p (pipes g) /\ in_gap_of c p) (coins g) ->
  Forall coin_ok (snd (spawn d (pipes g) (coins g)))
  /\ Forall (fun c => exists p, In p (spawned_pipes d g) /\ in_gap_of c p)
            (snd (spawn d (pipes g) (coins g))).
Proof.
  intros Hok Hgap. unfold spawned_pipes, spawn.
  destruct (need_spawn (pipes g)); [|now split].
  assert (Hold : Forall
                   (fun c => exists p,
                        In p (pipes g ++ [Pipe.init (WIDTH + 20) (gap_r d)])
                        /\ in_gap_of c p) (coins g)).
  { eapply Forall_impl; [|exact Hgap]. intros c (p & Hin & Hp).
    exists p. split; [|assumption]. apply in_or_app. now left. }
  destruct (PrimFloat.ltb (coin_u d) 0.5); cbn [fst snd];
    [|split; assumption].
  split.
  - apply Forall_app. split; [assumption|].
    constructor; [apply coin_init_ok|constructor].
  - apply Forall_app. split; [assumption|].
    constructor; [|constructor].
    exists (Pipe.init (WIDTH + 20) (gap_r d)). split.
    + apply in_or_app. right. now left.
    + unfold in_gap_of. cbn [Coin.init Coin.x Coin.y Pipe.init Pipe.x].
      split; [reflexivity|]. cbn [Pipe.gap_y].
      apply randint_range. unfold PIPE_GAP. lia.
Qed.

Lemma played_coins (d : Draws) (g : Game) (bx : Z) (keep : Coin.t -> bool) :
  Forall pipe_ok (pipes g) ->
  Forall coin_ok (coins g) ->
  Forall (fun c => exists p, In p (pipes g) /\ in_gap_of c p) (coins g) ->
  Forall coin_ok (filter keep (coins (advance d g)))
  /\ Forall (fun c => exists p,
                 In p (map (mark bx) (pipes (advance d g))) /\ in_gap_of c p)
            (filter keep (coins (advance d g))).
Proof.
  intros Hpok Hok Hgap.
  destruct (spawned_coins d g Hok Hgap) as [Hsok Hsgap].
  pose proof (spawned_pipe_ok d g Hpok) as Hspok.
  rewrite advance_coins, advance_pipes. split.
  - apply Forall_filter_keep. apply Forall_filter_keep. apply Forall_map.
    eapply Forall_impl; [|exact Hsok]. intros c. apply coin_update_ok.
  - apply Forall_filter_keep. apply Forall_forall. intros c Hc.
    apply filter_In in Hc. destruct Hc as [Hin Hoff].
    apply in_map_iff in Hin. destruct Hin as (c0 & <- & Hc0).
    rewrite Forall_forall in Hsgap, Hsok, Hspok.
    destruct (Hsgap c0 Hc0) as (p & Hp & Hx & Hy).
    destruct (Hsok c0 Hc0) as [Hrad _].
    destruct (Hspok p Hp) as [Hw _].
    exists (mark bx (Pipe.update (pipe_speed (score g)) p)). split.
    + apply in_map. apply filter_In. split; [now apply in_map|].
      apply negb_true_iff. apply negb_true_iff in Hoff.
      unfold Coin.offscreen in Hoff. unfold Pipe.offscreen.
      apply Z.ltb_ge in Hoff. apply Z.ltb_ge.
      cbn [Coin.update Coin.x Coin.radius Pipe.update Pipe.x Pipe.w] in *.
      unfold COIN_RADIUS, PIPE_WIDTH in *. lia.
    + destruct (mark_fields bx (Pipe.update (pipe_speed (score g)) p))
        as (Hmx & _ & Hmg).
      unfold in_gap_of. rewrite Hmx, Hmg.
      cbn [Coin.update Coin.x Coin.y Pipe.update Pipe.x Pipe.gap_y].
      split; [lia|assumption].
Qed.

Lemma played_particles (ps : list Particle.t) (cs : list Coin.t) :
  Forall particle_ok ps ->
  Forall particle_ok (particles_step ps ++ flat_map burst cs).
Proof.
  intro H. apply Forall_app. split.
  - unfold particles_step. apply Forall_forall. intros q Hq.
    apply filter_In in Hq. destruct Hq as [Hin Hpos].
    apply in_map_iff in Hin. destruct Hin as (q0 & <- & Hq0).
    rewrite Forall_forall in H. specialize (H q0 Hq0).
    apply Z.ltb_lt in Hpos. unfold particle_ok in *.
    cbn [Particle.update Particle.lifetime] in *. lia.
  - apply Forall_forall. intros q Hq. apply in_flat_map in Hq.
    destruct Hq as (c & _ & Hq). destruct (burst_spec c) as [_ Hb].
    rewrite Forall_forall in Hb. destruct (Hb q Hq) as (_ & _ & Hl).
    unfold particle_ok. rewrite Hl. unfold PARTICLE_LIFETIME. lia.
Qed.

Lemma earned_nonneg (br : Rect.t) (bx : Z) (ps : list Pipe.t)
    (cs : list Coin.t) : 0 <= earned br bx ps cs.
Proof. unfold earned, COIN_BONUS. lia. Qed.

Lemma two_pipes_ok (x0 x1 r0 r1 : Z) :
  BIRD_X <= x0 -> x0 + PIPE_SPACING <= x1 ->
  x1 <= WIDTH + PIPE_SPACING + 200 ->
  Forall gap_ok [Pipe.init x0 r0; Pipe.init x1 r1]
  /\ Forall pipe_ok [Pipe.init x0 r0; Pipe.init x1 r1]
  /\ Forall (fun p => Pipe.passed p = true <-> behind BIRD_X p)
            [Pipe.init x0 r0; Pipe.init x1 r1]
  /\ StronglySorted ahead [Pipe.init x0 r0; Pipe.init x1 r1].
Proof.
  intros H0 H01 H1. split; [|split; [|split]].
  - repeat constructor; apply init_gap_ok.
  - unfold PIPE_SPACING, BIRD_X in *.
    constructor; [|constructor; [|constructor]];
      unfold pipe_ok; cbn [Pipe.init Pipe.w Pipe.x];
      unfold PIPE_SPACING, PIPE_WIDTH; (split; [reflexivity|lia]).
  - unfold PIPE_SPACING, BIRD_X in *.
    constructor; [|constructor; [|constructor]];
      unfold behind; cbn [Pipe.init Pipe.w Pipe.x Pipe.passed];
      unfold PIPE_WIDTH, BIRD_X; (split; [discriminate|lia]).
  - repeat constructor. exact H01.
Qed.

Lemma played_passed (d : Draws) (g : Game) :
  0 <= score g ->
  Forall (fun p => Pipe.passed p = true <-> behind BIRD_X p) (pipes g) ->
  Forall (fun p => Pipe.passed p = true <-> behind BIRD_X p)
         (map (mark BIRD_X) (pipes (advance d g))).
Proof.
  intros Hsc Hinv. rewrite advance_pipes.
  pose proof (pipe_speed_pos (score g) Hsc) as Hsp.
  assert (Hsp0 : Forall (fun p => Pipe.passed p = true <-> behind BIRD_X p)
                        (spawned_pipes d g)).
  { unfold spawned_pipes, spawn.
    destruct (need_spawn (pipes g)); [|assumption].
    assert (Hnew : Pipe.passed (Pipe.init (WIDTH + 20) (gap_r d)) = true
                   <-> behind BIRD_X (Pipe.init (WIDTH + 20) (gap_r d))).
    { unfold behind. cbn [Pipe.init Pipe.passed Pipe.x Pipe.w].
      unfold WIDTH, PIPE_WIDTH, BIRD_X. split; [discriminate|lia]. }
    destruct (PrimFloat.ltb (coin_u d) 0.5); cbn [fst];
      (apply Forall_app; split; [assumption|]); now constructor. }
  apply Forall_map. apply Forall_filter_keep. apply Forall_map.
  eapply Forall_impl; [|exact Hsp0]. intros q Hq.
  unfold mark, flips, behind in *.
  cbn [Pipe.update Pipe.passed Pipe.x Pipe.w].
  unfold PIPE_SPEED_BASE in Hsp.
  destruct (Pipe.passed q) eqn:Hpq; cbn [negb andb Pipe.update Pipe.passed
                                          Pipe.x Pipe.w].
  - rewrite Hpq. destruct Hq as [Hq _]. specialize (Hq eq_refl).
    split; [intros _; lia|reflexivity].
  - destruct (Pipe.x q - pipe_speed (score g) + Pipe.w q <? BIRD_X) eqn:Hlt;
      cbn [Pipe.set_passed Pipe.update Pipe.passed Pipe.x Pipe.w].
    + apply Z.ltb_lt in Hlt. split; [intros _; exact Hlt|reflexivity].
    + apply Z.ltb_ge in Hlt. rewrite Hpq. split; [discriminate|lia].
Qed.

Lemma wf_main_init (m : nat) (f : HighScore.file) (draw : Z -> Z) :
  wf (main_init m f draw).
Proof.
  unfold wf. cbn [main_init pipes coins particles score state paused bird
                  just_started_cooldown highscore].
  destruct (two_pipes_ok (WIDTH + 150) (WIDTH + 150 + PIPE_SPACING)
                         (draw 0) (draw 1))
    as (Hg & Hp & Hpb & Hs);
    try (unfold WIDTH, PIPE_WIDTH, PIPE_SPACING, BIRD_X; lia).
  repeat split; try assumption; try constructor; try lia; try discriminate.
Qed.

Lemma wf_reset (draw : Z -> Z) (g : Game) :
  wf (set_cooldown 10 (reset_game draw g)).
Proof.
  unfold wf. cbn [set_cooldown reset_game pipes coins particles score state
                  paused bird just_started_cooldown highscore map].
  destruct (two_pipes_ok (WIDTH + 0 * PIPE_SPACING + 200)
                         (WIDTH + 1 * PIPE_SPACING + 200)
                         (draw 0) (draw 1))
    as (Hg & Hp & Hpb & Hs);
    try (unfold WIDTH, PIPE_WIDTH, PIPE_SPACING, BIRD_X; lia).
  repeat split; try assumption; try constructor; try lia; try discriminate.
Qed.

Lemma wf_primary_action (draw : Z -> Z) (g : Game) :
  wf g -> wf (primary_action draw g).
Proof.
  intro H. unfold primary_action.
  destruct (state g) eqn:Hst; try apply wf_reset.
  destruct ((just_started_cooldown g =? 0) && negb (paused g));
    [|assumption].
  unfold wf in *. cbn [set_bird pipes coins particles score state paused bird
                       just_started_cooldown highscore Bird.flap Bird.x
                       Bird.w Bird.h].
  exact H.
Qed.

Lemma wf_handle_event (draw : Z -> Z) (e : event) (g : Game) :
  wf g -> wf (handle_event draw e g).
Proof.
  intro H. pose proof (wf_primary_action draw g H) as Hprim.
  destruct e as [|k|b|]; cbn [handle_event].
  - exact H.
  - destruct k; try exact H;
      repeat match goal with
             | |- context [match state ?x with _ => _ end] =>
                 destruct (state x) eqn:?
             end; try exact Hprim; try exact H.
    unfold wf in *.
    cbn [set_paused pipes coins particles score state paused bird
         just_started_cooldown highscore].
    destruct H as (H1 & H2 & Hb & H3 & H4 & H5 & H6 & H7 & H8 & H9 & H10
                   & H11).
    repeat split; try assumption; try apply H8; try apply H11.
    intros _. assumption.
  - destruct (b =? 1); assumption.
  - exact H.
Qed.

Lemma wf_update (d : Draws) (g g' : Game) :
  wf g -> update d g = Some g' -> wf g'.
Proof.
  intros H Hu.
  pose proof (update_gap_ok d g g') as Hgapok.
  destruct (update_cases d g g' Hu)
    as [[-> _]|(Hst & Hp & br & Hbr & Hb & Hpi & Hco & Hpa & Hsc & Hgs & Hhs
                & _ & Hpau & Hcd & _)]; [assumption|].
  destruct H as (H1 & H2 & Hpb & H3 & H4 & H5 & H6 & H7 & H8 & H9 & H10
                 & H11).
  destruct (played_pipes d g (Bird.x (bird g)) H7 H2 H3) as [Hpok Hsorted].
  destruct H11 as (Hbx & Hbw & Hbh).
  assert (Hpassed :
            Forall (fun p => Pipe.passed p = true <-> behind BIRD_X p)
                   (map (mark (Bird.x (bird g))) (pipes (advance d g))))
    by (rewrite Hbx; exact (played_passed d g H7 Hpb)).
  destruct (played_coins d g (Bird.x (bird g))
                         (fun c => negb (touches br c)) H2 H4 H5)
    as [Hcok Hcgap].
  pose proof (earned_nonneg br (Bird.x (bird g)) (pipes (advance d g))
                            (coins (advance d g))) as He.
  unfold wf. rewrite Hpi, Hco, Hpa, Hpau, Hcd, Hb. rewrite <- Hpi.
  split; [now apply Hgapok|]. rewrite Hpi.
  split; [assumption|]. split; [assumption|]. split; [assumption|].
  split; [assumption|].
  split; [assumption|]. split; [now apply played_particles|].
  split; [lia|]. split.
  { destruct (0 <? just_started_cooldown g) eqn:Hc;
      [apply Z.ltb_lt in Hc|apply Z.ltb_ge in Hc]; lia. }
  split.
  { intro Hover. rewrite Hhs.
    destruct (hit_at br (advance d g)); [|rewrite Hgs in Hover; discriminate].
    cbn [andb]. destruct (highscore g <? score g') eqn:Hlt;
      [lia|now apply Z.ltb_ge in Hlt]. }
  split; [discriminate|].
  cbn [Bird.update Bird.x Bird.w Bird.h]. repeat split; assumption.
Qed.

Lemma wf_events (draw : Z -> Z) (events : list event) :
  forall g : Game,
    wf g -> wf (fold_left (fun g e => handle_event draw e g) events g).
Proof.
  induction events as [|e r IH]; intros g H; [assumption|].
  cbn [fold_left]. apply IH. now apply wf_handle_event.
Qed.

Lemma wf_main_loop (inputs : list ((Z -> Z) * list event * Draws)) :
  forall g g' : Game, wf g -> main_loop inputs g = Some g' -> wf g'.
Proof.
  induction inputs as [|[[draw events] d] rest IH]; intros g g' H Hf.
  - cbn [main_loop] in Hf. now injection Hf as <-.
  - cbn [main_loop] in Hf.
    destruct (running g); [|now injection Hf as <-].
    destruct (frame draw events d g) as [g1|] eqn:Hg1; [|discriminate].
    apply (IH g1 g'); [|assumption].
    unfold frame in Hg1. eapply wf_update; [|exact Hg1].
    now apply wf_events.
Qed.

Lemma reachable_wf (g : Game) : reachable g -> wf g.
Proof.
  intros (m & f & draw0 & inputs & Hf).
  eapply wf_main_loop; [|exact Hf]. apply wf_main_init.
Qed.

(** The scripted game after 270 frames: two pipes passed and a coin
    collected, its five particles in the air, the next coin on its way. *)
Example playthrough_270 :
  exists g : Game,
    playthrough 270 = Some g
    /\ reachable g
    /\ state g = playing /\ score g = 7
    /\ map Pipe.x (pipes g) = [-60; 111; 282]
    /\ map (fun c => (Coin.x c, Coin.y c)) (coins g) = [(282, 292)]
    /\ map Particle.lifetime (particles g) = [26; 26; 26; 26; 26].
Proof.
  eexists. split; [vm_compute; reflexivity|]. split.
  - exists 4300%nat, HighScore.Absent, (fun i => i),
           (playthrough_inputs 270).
    vm_compute. reflexivity.
  - repeat split.
Qed.

(** The scripted game is reachable at each of its frames. *)
Ltac playthrough_reachable_at n :=
  exists 4300%nat, HighScore.Absent, (fun i => i), (playthrough_inputs n);
  vm_compute; reflexivity.

Ltac playthrough_reachable := playthrough_reachable_at 270%nat.


(* ------------------------------------------------------------------ *)
(** ** Pipes and coins on the screen *)

Lemma spaced_length (l : list Pipe.t) :
  forall lo : Z,
    l <> [] -> StronglySorted ahead l ->
    Forall (fun p => lo <= Pipe.x p <= WIDTH + PIPE_SPACING + 200) l ->
    (Z.of_nat (List.length l) - 1) * PIPE_SPACING
    <= WIDTH + PIPE_SPACING + 200 - lo.
Proof.
  induction l as [|a r IH]; intros lo Hne Hs Hb; [congruence|].
  inversion Hs as [|? ? Hs' Ha]; subst.
  inversion Hb as [|? ? Hba Hbr]; subst.
  destruct r as [|b r'].
  - cbn [List.length]. lia.
  - assert (Hb' : Forall (fun p => lo + PIPE_SPACING <= Pipe.x p
                                   <= WIDTH + PIPE_SPACING + 200) (b :: r')).
    { rewrite Forall_forall in *. intros p Hp.
      specialize (Ha p Hp). specialize (Hbr p Hp). unfold ahead in Ha. lia. }
    specialize (IH (lo + PIPE_SPACING) ltac:(discriminate) Hs' Hb').
    change (List.length (a :: b :: r')) with (S (List.length (b :: r'))).
    rewrite Nat2Z.inj_succ. lia.
Qed.

(** X10. In every reachable session the pipes stand in order from left to
    right, each at least [PIPE_SPACING] right of the one before, all of
    width [PIPE_WIDTH] and between -70 and 750; so no two overlap, and there
    are never more than six. *)
Theorem pipes_spaced :
  forall g : Game,
    reachable g ->
    StronglySorted ahead (pipes g)
    /\ Forall pipe_ok (pipes g)
    /\ (forall p q : Pipe.t,
           In p (pipes g) -> In q (pipes g) ->
           p = q \/ Pipe.x p + Pipe.w p < Pipe.x q
           \/ Pipe.x q + Pipe.w q < Pipe.x p)
    /\ (List.length (pipes g) <= 6)%nat.
Proof.
  intros g Hr. destruct (reachable_wf g Hr) as (_ & Hok & _ & Hs & _).
  split; [assumption|]. split; [assumption|]. split.
  - intros p q Hp Hq. rewrite Forall_forall in Hok.
    destruct (Hok p Hp) as [Hwp _]. destruct (Hok q Hq) as [Hwq _].
    destruct (ss_in _ _ p q Hs Hp Hq) as [Heq|[Ha|Ha]];
      [now left|right; left|right; right];
      unfold ahead, PIPE_SPACING, PIPE_WIDTH in *; lia.
  - destruct (pipes g) as [|a r] eqn:Hps; [cbn; lia|].
    assert (Hb : Forall (fun p => - PIPE_WIDTH <= Pipe.x p
                                  <= WIDTH + PIPE_SPACING + 200) (a :: r)).
    { eapply Forall_impl; [|exact Hok]. intros p [_ Hp]. exact Hp. }
    pose proof (spaced_length (a :: r) (- PIPE_WIDTH) ltac:(discriminate)
                              Hs Hb) as Hlen.
    unfold PIPE_SPACING, PIPE_WIDTH, WIDTH in Hlen. lia.
Qed.

Lemma pipes_spaced_witness :
  exists g : Game,
    playthrough 270 = Some g
    /\ map Pipe.x (pipes g) = [-60; 111; 282]
    /\ (List.length (pipes g) <= 6)%nat.
Proof.
  eexists. split; [vm_compute; reflexivity|]. split; [reflexivity|].
  apply pipes_spaced. playthrough_reachable.
Defined.

(** X11. In every reachable session each coin's rectangle is the square of
    side 20 around the coin, and it overlaps no pipe: the coin floats in the
    gap of the pipe it was spawned with and is clear of all the others. *)
Theorem coins_clear_of_pipes :
  forall g : Game,
    reachable g ->
    Forall coin_ok (coins g)
    /\ forall (c : Coin.t) (p : Pipe.t),
        In c (coins g) -> In p (pipes g) -> hits_pipe (Coin.rect c) p = false.
Proof.
  intros g Hr.
  destruct (reachable_wf g Hr) as (Hgap & Hok & _ & Hs & Hcok & Hcgap & _).
  split; [assumption|]. intros c p Hc Hp.
  rewrite Forall_forall in Hgap, Hok, Hcok, Hcgap.
  destruct (Hcok c Hc) as [_ Hrect].
  destruct (Hcgap c Hc) as (p0 & Hp0 & Hx0 & Hy0).
  destruct (Hok p Hp) as [Hw _]. destruct (Hok p0 Hp0) as [Hw0 _].
  apply not_true_is_false. intro Hh.
  apply hits_pipe_spec in Hh;
    [|now apply Hgap|rewrite Hw; reflexivity
     |rewrite Hrect; reflexivity|rewrite Hrect; reflexivity].
  rewrite Hrect in Hh. cbn [Rect.x Rect.y Rect.w Rect.h] in Hh.
  destruct (ss_in _ _ p p0 Hs Hp Hp0) as [->|[Ha|Ha]];
    unfold ahead, PIPE_SPACING, PIPE_WIDTH, PIPE_GAP, COIN_RADIUS in *; lia.
Qed.

Lemma coins_clear_of_pipes_witness :
  exists g : Game,
    playthrough 270 = Some g
    /\ map (fun c => (Coin.x c, Coin.y c)) (coins g) = [(282, 292)]
    /\ Forall coin_ok (coins g).
Proof.
  eexists. split; [vm_compute; reflexivity|]. split; [reflexivity|].
  apply coins_clear_of_pipes. playthrough_reachable.
Defined.

(* ------------------------------------------------------------------ *)
(** ** Particles on the screen *)

Lemma alpha_table :
  forallb (fun l => match particle_alpha (Particle.mk 0 0 l) with
                    | Some a => a =? 17 * l / 2
                    | None => false
                    end)
          (map Z.of_nat (seq 1 30)) = true.
Proof. vm_compute. reflexivity. Qed.

Lemma alpha_of_lifetime (q : Particle.t) :
  particle_ok q -> particle_alpha q = Some (17 * Particle.lifetime q / 2).
Proof.
  intros [Hlo Hhi]. unfold PARTICLE_LIFETIME in Hhi.
  pose proof alpha_table as Ht. rewrite forallb_forall in Ht.
  specialize (Ht (Particle.lifetime q)).
  assert (Hin : In (Particle.lifetime q) (map Z.of_nat (seq 1 30))).
  { apply in_map_iff. exists (Z.to_nat (Particle.lifetime q)).
    split; [lia|]. apply in_seq. lia. }
  specialize (Ht Hin).
  change (particle_alpha (Particle.mk 0 0 (Particle.lifetime q)))
    with (particle_alpha q) in Ht.
  destruct (particle_alpha q) as [a|]; [|discriminate].
  apply Z.eqb_eq in Ht. now subst a.
Qed.

(** X12. In every reachable session each particle has a lifetime from 1 to
    [PARTICLE_LIFETIME], and the opacity [draw] computes for it is the floor
    of 8.5 times the lifetime, a colour component between 8 and 255. *)
Theorem particles_drawable :
  forall g : Game,
    reachable g ->
    Forall (fun q =>
              1 <= Particle.lifetime q <= PARTICLE_LIFETIME
              /\ particle_alpha q = Some (17 * Particle.lifetime q / 2)
              /\ 8 <= 17 * Particle.lifetime q / 2 <= 255)
           (particles g).
Proof.
  intros g Hr.
  destruct (reachable_wf g Hr) as (_ & _ & _ & _ & _ & _ & Hp & _).
  eapply Forall_impl; [|exact Hp]. intros q Hq.
  split; [exact Hq|]. split; [now apply alpha_of_lifetime|].
  destruct Hq as [Hlo Hhi]. unfold PARTICLE_LIFETIME in Hhi.
  split.
  - apply Z.div_le_lower_bound; lia.
  - apply Z.div_le_upper_bound; lia.
Qed.

Lemma particles_drawable_witness :
  exists g : Game,
    playthrough 270 = Some g
    /\ map Particle.lifetime (particles g) = [26; 26; 26; 26; 26]
    /\ map particle_alpha (particles g)
       = [Some 221; Some 221; Some 221; Some 221; Some 221]
    /\ Forall (fun q => 1 <= Particle.lifetime q <= PARTICLE_LIFETIME)
              (particles g).
Proof.
  eexists. split; [vm_compute; reflexivity|]. split; [reflexivity|].
  split; [vm_compute; reflexivity|].
  eapply Forall_impl;
    [|apply particles_drawable; playthrough_reachable].
  intros q (H & _). exact H.
Defined.

(* ------------------------------------------------------------------ *)
(** ** Score and high score *)

Lemma handle_event_highscore (draw : Z -> Z) (e : event) (g : Game) :
  highscore (handle_event draw e g) = highscore g.
Proof.
  assert (Hprim : highscore (primary_action draw g) = highscore g).
  { unfold primary_action. destruct (state g); try reflexivity.
    destruct ((just_started_cooldown g =? 0) && negb (paused g));
      reflexivity. }
  destruct e as [|k|b|]; cbn [handle_event]; try reflexivity.
  - destruct k; cbn [set_running highscore]; try exact Hprim;
      try reflexivity;
      repeat match goal with
             | |- context [match state ?x with _ => _ end] =>
                 destruct (state x)
             end; try exact Hprim; reflexivity.
  - destruct (b =? 1); [exact Hprim|reflexivity].
Qed.

Lemma events_highscore (draw : Z -> Z) (events : list event) :
  forall g : Game,
    highscore (fold_left (fun g e => handle_event draw e g) events g)
    = highscore g.
Proof.
  induction events as [|e r IH]; intro g; [reflexivity|].
  cbn [fold_left]. now rewrite IH, handle_event_highscore.
Qed.

Lemma update_highscore (d : Draws) (g g' : Game) :
  update d g = Some g' -> highscore g <= highscore g'.
Proof.
  intro Hu.
  destruct (update_cases d g g' Hu)
    as [[-> _]|(_ & _ & br & _ & _ & _ & _ & _ & _ & _ & Hhs & _)]; [lia|].
  rewrite Hhs.
  destruct (hit_at br (advance d g) && (highscore g <? score g')) eqn:Hc;
    [|lia].
  apply andb_true_iff in Hc. destruct Hc as [_ Hlt].
  apply Z.ltb_lt in Hlt. lia.
Qed.

(** X13. The high score never goes down: over any number of frames,
    whatever is pressed and however the games end and restart, it is at
    least what it was. *)
Theorem highscore_never_decreases :
  forall (inputs : list ((Z -> Z) * list event * Draws)) (g g' : Game),
    main_loop inputs g = Some g' -> highscore g <= highscore g'.
Proof.
  intros inputs. induction inputs as [|[[draw events] d] rest IH];
    intros g g' Hf; cbn [main_loop] in Hf.
  - injection Hf as <-. lia.
  - destruct (running g); [|injection Hf as <-; lia].
    destruct (frame draw events d g) as [g1|] eqn:Hg1; [|discriminate].
    unfold frame in Hg1. apply update_highscore in Hg1.
    rewrite events_highscore in Hg1.
    specialize (IH g1 g' Hf). lia.
Qed.

Lemma highscore_never_decreases_witness :
  exists g : Game,
    main_loop [(fun i => i, [], fixture_draws)]
              (fixture 520 [passing_pipe; near_pipe] [coin_ahead 530] 2)
    = Some g
    /\ highscore g = 6
    /\ highscore (fixture 520 [passing_pipe; near_pipe] [coin_ahead 530] 2)
       <= highscore g.
Proof.
  eexists. split; [vm_compute; reflexivity|]. split; [reflexivity|].
  apply (highscore_never_decreases [(fun i => i, [], fixture_draws)]).
  vm_compute. reflexivity.
Defined.

(** X14. In every reachable session that is over, the high score is at
    least the score of the game just lost. *)
Theorem game_over_score_recorded :
  forall g : Game,
    reachable g -> state g = gameover -> score g <= highscore g.
Proof.
  intros g Hr Hover.
  destruct (reachable_wf g Hr)
    as (_ & _ & _ & _ & _ & _ & _ & _ & _ & H & _).
  now apply H.
Qed.

Lemma game_over_score_recorded_witness :
  exists g : Game,
    main_loop
      ((fun i => i, [KEYDOWN K_SPACE], fixture_draws)
         :: repeat (fun i => i, [], fixture_draws) 29)
      (main_init 4300 HighScore.Absent (fun i => i))
    = Some g
    /\ state g = gameover
    /\ score g <= highscore g.
Proof.
  eexists. split; [vm_compute; reflexivity|]. split; [reflexivity|].
  apply game_over_score_recorded.
  - exists 4300%nat, HighScore.Absent, (fun i => i),
           ((fun i => i, [KEYDOWN K_SPACE], fixture_draws)
              :: repeat (fun i => i, [], fixture_draws) 29).
    vm_compute. reflexivity.
  - reflexivity.
Defined.

(** X15. In every reachable session the score is at least 0, so the speed
    of a frame is at least the base speed: pipes and coins always move to the
    left, by three pixels or more. *)
Theorem speed_at_least_base :
  forall g : Game,
    reachable g ->
    0 <= score g
    /\ PIPE_SPEED_BASE <= pipe_speed (score g)
    /\ forall p : Pipe.t,
        Pipe.x (Pipe.update (pipe_speed (score g)) p) <= Pipe.x p - 3.
Proof.
  intros g Hr.
  destruct (reachable_wf g Hr) as (_ & _ & _ & _ & _ & _ & _ & Hsc & _).
  pose proof (pipe_speed_pos (score g) Hsc) as Hsp.
  split; [assumption|]. split; [assumption|].
  intro p. cbn [Pipe.update Pipe.x]. unfold PIPE_SPEED_BASE in Hsp. lia.
Qed.

Lemma speed_at_least_base_witness :
  exists g : Game,
    playthrough 270 = Some g
    /\ score g = 7
    /\ PIPE_SPEED_BASE <= pipe_speed (score g).
Proof.
  eexists. split; [vm_compute; reflexivity|]. split; [reflexivity|].
  eapply proj1. eapply proj2.
  apply speed_at_least_base. playthrough_reachable.
Defined.

(* ------------------------------------------------------------------ *)
(** ** Passing pipes *)

(** X16. In every reachable session the passed flag of a pipe says exactly
    that the pipe's right edge is left of the bird; and since pipes keep their
    distance and leave the list once off screen, at most one pipe of the
    session is in that place. *)
Theorem passed_means_behind :
  forall g : Game,
    reachable g ->
    Forall (fun p => Pipe.passed p = true <-> behind BIRD_X p) (pipes g)
    /\ forall p q : Pipe.t,
        In p (pipes g) -> In q (pipes g) ->
        Pipe.passed p = true -> Pipe.passed q = true -> p = q.
Proof.
  intros g Hr.
  destruct (reachable_wf g Hr) as (_ & Hok & Hpb & Hs & _).
  split; [assumption|]. intros p q Hp Hq Hpp Hpq.
  rewrite Forall_forall in Hok, Hpb.
  apply (Hpb p Hp) in Hpp. apply (Hpb q Hq) in Hpq.
  destruct (Hok p Hp) as [Hwp [Hlp _]]. destruct (Hok q Hq) as [Hwq [Hlq _]].
  destruct (ss_in _ _ p q Hs Hp Hq) as [Heq|[Ha|Ha]]; [assumption| |];
    exfalso;
    unfold ahead, behind, PIPE_SPACING, PIPE_WIDTH, BIRD_X in *; lia.
Qed.

Lemma passed_means_behind_witness :
  exists g : Game,
    playthrough 270 = Some g
    /\ map (fun p => (Pipe.x p, Pipe.passed p)) (pipes g)
       = [(-60, true); (111, false); (282, false)]
    /\ Forall (fun p => Pipe.passed p = true <-> behind BIRD_X p) (pipes g).
Proof.
  eexists. split; [vm_compute; reflexivity|]. split; [reflexivity|].
  apply passed_means_behind. playthrough_reachable.
Defined.

Lemma advanced_pipes (d : Draws) (g : Game) :
  0 <= score g ->
  Forall pipe_ok (pipes g) -> StronglySorted ahead (pipes g) ->
  Forall pipe_ok (pipes (advance d g))
  /\ StronglySorted ahead (pipes (advance d g)).
Proof.
  intros Hsc Hok Hs. rewrite advance_pipes.
  pose proof (pipe_speed_pos (score g) Hsc) as Hsp.
  split.
  - apply Forall_forall. intros p Hp.
    apply filter_In in Hp. destruct Hp as [Hin Hoff].
    apply in_map_iff in Hin. destruct Hin as (q & <- & Hq).
    pose proof (spawned_pipe_ok d g Hok) as Hsok.
    rewrite Forall_forall in Hsok. destruct (Hsok q Hq) as [Hw [Hlo Hhi]].
    unfold pipe_ok.
    apply negb_true_iff in Hoff. unfold Pipe.offscreen in Hoff.
    apply Z.ltb_ge in Hoff. cbn [Pipe.update Pipe.x Pipe.w] in *.
    unfold PIPE_SPEED_BASE, WIDTH, PIPE_SPACING in *. lia.
  - apply ss_filter. apply ss_map; [|now apply spawned_sorted].
    intros p q. unfold ahead. cbn [Pipe.update Pipe.x]. lia.
Qed.

Lemma filter_none {A : Type} (f : A -> bool) (l : list A) :
  (forall a, In a l -> f a = false) -> filter f l = [].
Proof.
  induction l as [|a r IH]; intro H; [reflexivity|].
  cbn [filter]. rewrite (H a (or_introl eq_refl)).
  apply IH. intros b Hb. apply H. now right.
Qed.

Lemma one_flip_at_most (l : list Pipe.t) :
  StronglySorted ahead l -> Forall pipe_ok l ->
  (List.length (filter (flips BIRD_X) l) <= 1)%nat.
Proof.
  induction 1 as [|a r Hs IH Ha]; intro Hok; [cbn; lia|].
  inversion Hok as [|? ? Hoka Hokr]; subst.
  cbn [filter]. destruct (flips BIRD_X a) eqn:Hf; [|now apply IH].
  assert (Hnone : filter (flips BIRD_X) r = []).
  { apply filter_none. intros q Hq.
    rewrite Forall_forall in Ha, Hokr.
    specialize (Ha q Hq). destruct (Hokr q Hq) as [Hwq _].
    destruct Hoka as [Hwa [Hla _]].
    unfold flips in *. apply andb_true_iff in Hf. destruct Hf as [_ Hf].
    apply Z.ltb_lt in Hf. apply andb_false_iff. right. apply Z.ltb_ge.
    unfold ahead, PIPE_SPACING, PIPE_WIDTH, BIRD_X in *. lia. }
  rewrite Hnone. cbn. lia.
Qed.

(** X17. A frame played from a reachable session gives at most one point
    for pipes: the score grows by the bonus for each coin touched and by 0
    or 1 besides. *)
Theorem one_pipe_point_per_frame :
  forall (d : Draws) (g g' : Game),
    reachable g -> state g = playing -> paused g = false ->
    update d g = Some g' ->
    exists br : Rect.t,
      bird_rect (bird (advance d g)) = Some br
      /\ 0 <= score g' - score g
              - COIN_BONUS
                * Z.of_nat (List.length (filter (touches br)
                                                (coins (advance d g))))
         <= 1.
Proof.
  intros d g g' Hr Hst Hp Hu.
  destruct (reachable_wf g Hr)
    as (_ & Hok & _ & Hs & _ & _ & _ & Hsc & _ & _ & _ & Hbx & _).
  destruct (update_cases d g g' Hu)
    as [[_ [Hn|Hn]]|(_ & _ & br & Hbr & _ & _ & _ & _ & Hscore & _)];
    try congruence.
  exists br. split; [assumption|].
  destruct (advanced_pipes d g Hsc Hok Hs) as [Haok Has].
  pose proof (one_flip_at_most (pipes (advance d g)) Has Haok) as Hone.
  rewrite Hscore. unfold earned. rewrite Hbx. lia.
Qed.

(** Frame 247 of the scripted game: the second pipe is passed, the score
    goes from 1 to 2. *)
Lemma one_pipe_point_per_frame_witness :
  exists g g' : Game,
    playthrough 246 = Some g
    /\ update playthrough_draws g = Some g'
    /\ score g = 1 /\ score g' = 2
    /\ exists br : Rect.t,
        bird_rect (bird (advance playthrough_draws g)) = Some br
        /\ 0 <= score g' - score g
                - COIN_BONUS
                  * Z.of_nat (List.length
                                (filter (touches br)
                                        (coins (advance playthrough_draws g))))
           <= 1.
Proof.
  eexists. eexists.
  split; [vm_compute; reflexivity|]. split; [vm_compute; reflexivity|].
  split; [reflexivity|]. split; [reflexivity|].
  apply one_pipe_point_per_frame;
    [playthrough_reachable_at 246%nat|reflexivity|reflexivity
    |vm_compute; reflexivity].
Defined.

(** X18. A pipe that scores on a frame is not a pipe the bird hits on that
    frame: its right edge is already left of the bird's box. *)
Theorem scoring_pipe_is_clear :
  forall (b : Bird.t) (br : Rect.t) (p : Pipe.t),
    bird_rect b = Some br ->
    0 < Pipe.w p -> 0 < Bird.w b ->
    flips (Bird.x b) p = true ->
    hits_pipe br p = false.
Proof.
  intros b br p Hbr Hw Hbw Hf. unfold bird_rect in Hbr.
  destruct (Py.int_of_float (Bird.y b)) as [iy|]; [|discriminate].
  destruct (c_int iy); [|discriminate].
  injection Hbr as <-.
  unfold flips in Hf. apply andb_true_iff in Hf. destruct Hf as [_ Hf].
  apply Z.ltb_lt in Hf.
  assert (Hx : forall r : Rect.t,
             Rect.x r = Pipe.x p -> Rect.w r = Pipe.w p ->
             Rect.colliderect (Rect.mk (Bird.x b) iy (Bird.w b) (Bird.h b)) r
             = false).
  { intros r Hrx Hrw. unfold Rect.colliderect.
    cbn [Rect.x Rect.y Rect.w Rect.h].
    destruct ((Bird.w b =? 0) || (Bird.h b =? 0) || (Rect.w r =? 0)
              || (Rect.h r =? 0)); [reflexivity|].
    rewrite Hrx, Hrw.
    replace (Z.min (Bird.x b) (Bird.x b + Bird.w b)
             <? Z.max (Pipe.x p) (Pipe.x p + Pipe.w p)) with false
      by (symmetry; apply Z.ltb_ge; lia).
    reflexivity. }
  unfold hits_pipe. rewrite !Hx; reflexivity.
Qed.

Lemma scoring_pipe_is_clear_witness :
  hits_pipe (Rect.mk 80 100 34 24) (Pipe.update 3 passing_pipe) = false.
Proof.
  apply (scoring_pipe_is_clear
           (Bird.update (Bird.update (bird (fixture 99.1 [] [] 0))))
           (Rect.mk 80 100 34 24) (Pipe.update 3 passing_pipe));
    reflexivity.
Defined.

(* ------------------------------------------------------------------ *)
(** ** Leaving the loop *)

Lemma primary_action_running (draw : Z -> Z) (g : Game) :
  running (primary_action draw g) = running g.
Proof.
  unfold primary_action. destruct (state g); try reflexivity.
  destruct ((just_started_cooldown g =? 0) && negb (paused g)); reflexivity.
Qed.

Lemma handle_event_stays_stopped (draw : Z -> Z) (e : event) (g : Game) :
  running g = false -> running (handle_event draw e g) = false.
Proof.
  intro H. pose proof (primary_action_running draw g) as Hprim.
  rewrite H in Hprim.
  destruct e as [|k|b|]; cbn [handle_event]; try assumption; try reflexivity.
  - destruct k; cbn [set_running running]; try assumption; try reflexivity;
      repeat match goal with
             | |- context [match state ?x with _ => _ end] =>
                 destruct (state x)
             end; assumption.
  - destruct (b =? 1); assumption.
Qed.

Lemma events_stay_stopped (draw : Z -> Z) (events : list event) :
  forall g : Game,
    running g = false ->
    running (fold_left (fun g e => handle_event draw e g) events g) = false.
Proof.
  induction events as [|e r IH]; intros g H; [assumption|].
  cbn [fold_left]. apply IH. now apply handle_event_stays_stopped.
Qed.

Lemma handle_event_quits (draw : Z -> Z) (e : event) (g : Game) :
  e = QUIT \/ e = KEYDOWN K_ESCAPE ->
  running (handle_event draw e g) = false.
Proof. intros [-> | ->]; reflexivity. Qed.

Lemma events_quit (draw : Z -> Z) (events : list event) :
  forall g : Game,
    In QUIT events \/ In (KEYDOWN K_ESCAPE) events ->
    running (fold_left (fun g e => handle_event draw e g) events g) = false.
Proof.
  induction events as [|e r IH]; intros g Hin; [destruct Hin; contradiction|].
  cbn [fold_left].
  assert (Hcase : (e = QUIT \/ e = KEYDOWN K_ESCAPE)
                  \/ (In QUIT r \/ In (KEYDOWN K_ESCAPE) r)).
  { destruct Hin as [[->|Hin]|[->|Hin]]; tauto. }
  destruct Hcase as [He|Hr].
  - apply events_stay_stopped. now apply handle_event_quits.
  - now apply IH.
Qed.

Lemma update_running (d : Draws) (g g' : Game) :
  update d g = Some g' -> running g' = running g.
Proof.
  intro Hu.
  destruct (update_cases d g g' Hu)
    as [[-> _]|(_ & _ & br & _ & _ & _ & _ & _ & _ & _ & _ & _ & _ & _ & H)];
    [reflexivity|assumption].
Qed.

Lemma main_loop_stopped (inputs : list ((Z -> Z) * list event * Draws))
    (g : Game) :
  running g = false -> main_loop inputs g = Some g.
Proof.
  intro H. destruct inputs as [|[[draw events] d] rest]; [reflexivity|].
  cbn [main_loop]. now rewrite H.
Qed.

(** X19. QUIT or ESCAPE among the events of a frame ends the loop: the frame
    is played to its end, later input is never looked at, and the session is
    left with [running] cleared. Once cleared, [running] stays so whatever
    comes. *)
Theorem quit_ends_loop :
  forall (draw : Z -> Z) (events : list event) (d : Draws)
         (rest : list ((Z -> Z) * list event * Draws)) (g : Game),
    running g = true ->
    In QUIT events \/ In (KEYDOWN K_ESCAPE) events ->
    main_loop ((draw, events, d) :: rest) g = frame draw events d g
    /\ forall g' : Game,
        frame draw events d g = Some g' ->
        running g' = false
        /\ forall more : list ((Z -> Z) * list event * Draws),
            main_loop more g' = Some g'.
Proof.
  intros draw events d rest g Hrun Hin.
  assert (Hstop : forall g', frame draw events d g = Some g' ->
                             running g' = false).
  { intros g' Hf. unfold frame in Hf.
    rewrite (update_running _ _ _ Hf). now apply events_quit. }
  split.
  - cbn [main_loop]. rewrite Hrun.
    destruct (frame draw events d g) as [g'|] eqn:Hf; [|reflexivity].
    apply main_loop_stopped. now apply Hstop.
  - intros g' Hf. split; [now apply Hstop|].
    intro more. apply main_loop_stopped. now apply Hstop.
Qed.

Lemma quit_ends_loop_witness :
  main_loop
    [(fun i => i, [KEYDOWN K_SPACE; KEYDOWN K_ESCAPE], fixture_draws);
     (fun i => i, [KEYDOWN K_SPACE], fixture_draws)]
    (main_init 4300 HighScore.Absent (fun i => i))
  = frame (fun i => i) [KEYDOWN K_SPACE; KEYDOWN K_ESCAPE] fixture_draws
          (main_init 4300 HighScore.Absent (fun i => i)).
Proof.
  apply quit_ends_loop; [reflexivity|].
  right. right. left. reflexivity.
Defined.

(* ------------------------------------------------------------------ *)
(** ** Spawning *)

Lemma need_spawn_iff (ps : list Pipe.t) :
  need_spawn ps = true
  <-> ps = []
      \/ exists (front : list Pipe.t) (p : Pipe.t),
          ps = front ++ [p] /\ Pipe.x p < WIDTH - PIPE_SPACING.
Proof.
  unfold need_spawn.
  destruct (rev ps) as [|l tl] eqn:Hrev;
    apply (f_equal (@rev Pipe.t)) in Hrev; rewrite rev_involutive in Hrev;
    cbn [rev] in Hrev; subst ps.
  - split; [now left|reflexivity].
  - rewrite Z.ltb_lt. split.
    + intro H. right. now exists (rev tl), l.
    + intros [H|(front & p & Heq & Hp)].
      * destruct (rev tl); discriminate H.
      * apply app_inj_tail in Heq. destruct Heq as [_ <-]. exact Hp.
Qed.

(** X20. A frame adds a pipe exactly when there is none or the last one has
    come left of [WIDTH - PIPE_SPACING]; the pipe starts at [WIDTH + 20], not
    passed, its gap in range. A coin is never added without a pipe; it starts
    at the pipe's position, and its rectangle lies strictly inside the pipe's
    gap, at least 10 from either edge. *)
Theorem spawn_shape :
  forall (d : Draws) (ps : list Pipe.t) (cs : list Coin.t),
    (need_spawn ps = false /\ spawn d ps cs = (ps, cs))
    \/ (need_spawn ps = true
        /\ (ps = []
            \/ exists (front : list Pipe.t) (p : Pipe.t),
                ps = front ++ [p] /\ Pipe.x p < WIDTH - PIPE_SPACING)
        /\ exists p : Pipe.t,
            Pipe.x p = WIDTH + 20 /\ Pipe.w p = PIPE_WIDTH
            /\ Pipe.passed p = false /\ gap_ok p
            /\ (spawn d ps cs = (ps ++ [p], cs)
                \/ exists c : Coin.t,
                    spawn d ps cs = (ps ++ [p], cs ++ [c])
                    /\ Coin.x c = Pipe.x p
                    /\ Pipe.gap_y p + 10 <= Rect.y (Coin.rect c)
                    /\ Rect.y (Coin.rect c) + Rect.h (Coin.rect c)
                       <= Pipe.gap_y p + PIPE_GAP - 10
                    /\ hits_pipe (Coin.rect c) p = false)).
Proof.
  intros d ps cs. unfold spawn.
  destruct (need_spawn ps) eqn:Hn; [right|left; now split].
  split; [reflexivity|]. split; [now apply need_spawn_iff|].
  exists (Pipe.init (WIDTH + 20) (gap_r d)).
  pose proof (init_gap_ok (WIDTH + 20) (gap_r d)) as Hgap.
  repeat (split; [first [reflexivity|assumption]|]).
  destruct (PrimFloat.ltb (coin_u d) 0.5); [right|now left].
  eexists. split; [reflexivity|].
  pose proof (randint_range
                (Pipe.gap_y (Pipe.init (WIDTH + 20) (gap_r d)) + 20)
                (Pipe.gap_y (Pipe.init (WIDTH + 20) (gap_r d)) + PIPE_GAP - 20)
                (coin_r d) ltac:(unfold PIPE_GAP; lia)) as Hy.
  cbn [Coin.init Coin.x Coin.rect Rect.y Rect.h Pipe.init Pipe.x] in *.
  split; [reflexivity|].
  split; [unfold COIN_RADIUS; lia|].
  split; [unfold COIN_RADIUS, PIPE_GAP in *; lia|].
  apply not_true_is_false. intro Hh.
  apply hits_pipe_spec in Hh; try assumption; try reflexivity.
  cbn [Rect.x Rect.y Rect.w Rect.h Pipe.init Pipe.x Pipe.w Pipe.gap_y] in Hh.
  cbn [Pipe.gap_y Pipe.init] in Hy.
  unfold COIN_RADIUS, PIPE_GAP in *. lia.
Qed.
